(** * relokator: the Kubernetes resource client of package [migration]

    A shallow embedding of [migration/client.go] and the properties of its
    create / get / list / delete / update-with-retry operations.

    The client talks to the cluster through [kubernetes.Interface].  That
    interface is modelled as an oracle: every typed call answers as a function
    of the interaction history so far and of its arguments, which covers every
    deterministic backend and, by quantifying over oracles, every sequence of
    answers a real cluster can give.

    Go pointers are locations in an explicit heap, so that the in-place
    mutation done by the caller's [updateFunc] and the rebinding of the
    parameter ([pv, err := ...Get(...)]) are visible in the model.

    Conventions of the embedding:
    - a Go result pair [(result, err)] is a pair of options, [None] being
      [nil]; dereferencing [nil] is a panic ([Crash]);
    - the [for] loops of the update operations are unbounded; they are
      modelled with fuel, one unit per iteration, and [Timeout] is the loop
      still running when the fuel is used up;
    - [ctx] is handed unchanged to every backend call and is left out: a
      cancelled call shows as the error the backend call returns;
    - [log.Debugf] is an event of the trace. *)

From Stdlib Require Import String List Arith Lia Bool DecimalString.
From stdpp Require Import base list strings.

Open Scope string_scope.
Open Scope list_scope.

(** ** Kubernetes objects

    [batchv1.Job], [corev1.Pod], [corev1.PersistentVolume],
    [corev1.PersistentVolumeClaim] and [corev1.Namespace] all embed
    [metav1.ObjectMeta]; the client only ever reads [Name] and [Namespace].
    The remaining metadata that matters for optimistic concurrency and for
    callers' mutations is kept, the kind-specific rest is an opaque [Spec]. *)

Record Object : Type := mkObject {
  Name : string;
  Namespace : string;
  ResourceVersion : string;
  Labels : list (string * string);
  Spec : string
}.

Abbreviation Job := Object (only parsing).
Abbreviation Pod := Object (only parsing).
Abbreviation PersistentVolume := Object (only parsing).
Abbreviation PersistentVolumeClaim := Object (only parsing).
Abbreviation NamespaceObj := Object (only parsing).

(** The zero value of a Go struct: what [&batchv1.Job{}] points to. *)
Definition emptyObject : Object :=
  {| Name := ""; Namespace := ""; ResourceVersion := ""; Labels := []; Spec := "" |}.

(** ** Errors

    [apierrors.StatusError] carries a [metav1.StatusReason]; anything else
    (transport failure, context cancellation, ...) is an [errorString];
    [errors.Wrapf] of github.com/pkg/errors puts a message in front of a
    cause. *)

Inductive StatusReason : Type :=
| StatusReasonUnknown
| StatusReasonAlreadyExists
| StatusReasonNotFound
| StatusReasonConflict
| StatusReasonForbidden
| StatusReasonInvalid.

Inductive error : Type :=
| StatusError (reason : StatusReason) (message : string)
| errorString (message : string)
| withMessage (cause : error) (msg : string).

(** [errors.Wrapf(err, msg)] for a non-nil [err]. *)
Definition Wrapf (err : error) (msg : string) : error := withMessage err msg.

(** [apierrors.ReasonForError]: the reason of the first [APIStatus] found
    along the chain of causes ([errors.As]). *)
Fixpoint ReasonForError (err : error) : StatusReason :=
  match err with
  | StatusError reason _ => reason
  | errorString _ => StatusReasonUnknown
  | withMessage cause _ => ReasonForError cause
  end.

Definition IsAlreadyExists (err : error) : bool :=
  match ReasonForError err with StatusReasonAlreadyExists => true | _ => false end.

Definition IsNotFound (err : error) : bool :=
  match ReasonForError err with StatusReasonNotFound => true | _ => false end.

Definition IsConflict (err : error) : bool :=
  match ReasonForError err with StatusReasonConflict => true | _ => false end.

(** [errors.Is(err, target)]: [target] occurs along the chain of causes. *)
Fixpoint errorsIs (err target : error) : Prop :=
  err = target \/
  match err with
  | withMessage cause _ => errorsIs cause target
  | _ => False
  end.

(** ** Typed resource clients, events, worlds *)

(** [k.c.BatchV1().Jobs(ns)], [k.c.CoreV1().Pods(ns)],
    [k.c.CoreV1().PersistentVolumes()], ... *)
Inductive resource : Type :=
| Jobs (namespace : string)
| Pods (namespace : string)
| PersistentVolumes
| PersistentVolumeClaims (namespace : string)
| Namespaces.

(** A Go result pair [(result, err)]; [None] is [nil] on either side. *)
Definition reply (A : Type) : Type := (option A * option error)%type.

Abbreviation loc := nat (only parsing).

(** A Go pointer: [None] is [nil]. *)
Abbreviation ptr := (option nat) (only parsing).
Abbreviation nil_ptr := (@None nat) (only parsing).

Inductive event : Type :=
| EvCreate (r : resource) (sent : Object) (answer : reply Object)
| EvGet (r : resource) (name : string) (answer : reply Object)
| EvList (r : resource) (answer : reply (list Object))
| EvDelete (r : resource) (name : string) (answer : option error)
| EvUpdate (r : resource) (sent : Object) (answer : reply Object)
| EvUpdateFunc (l : loc) (before after : Object)
| EvDebugf (msg : string).

Record World : Type := mkWorld {
  trace : list event;
  heap : list Object
}.

(** The backend: [kubernetes.Interface] restricted to the calls the client
    makes.  Each call sees the history of the interaction so far. *)
Record Interface : Type := mkInterface {
  Create : resource -> list event -> Object -> reply Object;
  Get : resource -> list event -> string -> reply Object;
  List : resource -> list event -> reply (list Object);
  Delete : resource -> list event -> string -> option error;
  Update : resource -> list event -> Object -> reply Object
}.

(** ** The computation monad: state, panics and fuel *)

Inductive res (A : Type) : Type :=
| Val (a : A) (w : World)      (* the function returned [a] *)
| Crash (w : World)            (* nil pointer dereference *)
| Timeout (w : World).         (* the fuel of a [for] loop ran out *)

Arguments Val {A} a w.
Arguments Crash {A} w.
Arguments Timeout {A} w.

Definition M (A : Type) : Type := World -> res A.

Definition ret {A : Type} (a : A) : M A := fun w => Val a w.

Definition bind {A B : Type} (m : M A) (f : A -> M B) : M B :=
  fun w =>
    match m w with
    | Val a w' => f a w'
    | Crash w' => Crash w'
    | Timeout w' => Timeout w'
    end.

Notation "'let*' x ':=' m 'in' k" := (bind m (fun x => k))
  (at level 10, x pattern, m at level 100, k at level 200).

Definition panic {A : Type} : M A := fun w => Crash w.
Definition spin {A : Type} : M A := fun w => Timeout w.

Definition world_of {A : Type} (r : res A) : World :=
  match r with Val _ w => w | Crash w => w | Timeout w => w end.

Definition returned {A : Type} (r : res A) : option A :=
  match r with Val a _ => Some a | _ => None end.

Definition history : M (list event) := fun w => Val (trace w) w.

Definition emit (e : event) : M unit :=
  fun w => Val tt {| trace := trace w ++ [e]; heap := heap w |}.

(** [*p]: dereferencing [nil] panics. *)
Definition load (p : ptr) : M Object :=
  fun w =>
    match p with
    | Some l => match heap w !! l with
                | Some o => Val o w
                | None => Crash w
                end
    | None => Crash w
    end.

(** The typed clients decode every answer into a newly allocated object
    ([result = &v1.PersistentVolume{}]); a [nil] result stays [nil]. *)
Definition new (o : option Object) : M ptr :=
  fun w =>
    match o with
    | Some x => Val (Some (length (heap w))) {| trace := trace w; heap := heap w ++ [x] |}
    | None => Val nil_ptr w
    end.

(** [updateFunc(p)]: the caller's function mutates the object [p] points to
    in place.  It is a function of the object it is given; handed [nil] it
    has nothing to mutate and panics. *)
Definition call (updateFunc : Object -> Object) (p : ptr) : M unit :=
  fun w =>
    match p with
    | Some l => match heap w !! l with
                | Some o => Val tt {| trace := trace w ++ [EvUpdateFunc l o (updateFunc o)];
                                      heap := <[l := updateFunc o]> (heap w) |}
                | None => Crash w
                end
    | None => Crash w
    end.

Definition Debugf (msg : string) : M unit := emit (EvDebugf msg).

(** *** Calls to the typed clients *)

Definition clientCreate (k : Interface) (r : resource) (p : ptr) : M (ptr * option error) :=
  let* o := load p in
  let* h := history in
  let answer := Create k r h o in
  let* _ := emit (EvCreate r o answer) in
  let* result := new (fst answer) in
  ret (result, snd answer).

Definition clientGet (k : Interface) (r : resource) (name : string) : M (ptr * option error) :=
  let* h := history in
  let answer := Get k r h name in
  let* _ := emit (EvGet r name answer) in
  let* result := new (fst answer) in
  ret (result, snd answer).

Definition clientList (k : Interface) (r : resource) : M (option (list Object) * option error) :=
  let* h := history in
  let answer := List k r h in
  let* _ := emit (EvList r answer) in
  ret answer.

Definition clientDelete (k : Interface) (r : resource) (name : string) : M (option error) :=
  let* h := history in
  let answer := Delete k r h name in
  let* _ := emit (EvDelete r name answer) in
  ret answer.

Definition clientUpdate (k : Interface) (r : resource) (p : ptr) : M (ptr * option error) :=
  let* o := load p in
  let* h := history in
  let answer := Update k r h o in
  let* _ := emit (EvUpdate r o answer) in
  let* result := new (fst answer) in
  ret (result, snd answer).

(** ** The client: [migration/client.go]

    The receiver [k *kubernetesClient] has the single field [c], the
    clientset; the embedding passes that clientset as [k].  The package-level
    option values ([getOpts], [updateOpts], ...) are empty and never written,
    so they do not appear. *)

(** CreateJob creates a Job and returns it after the server has processed it.
    The parameter [job] is reassigned by the [Create] call, also when that
    call fails: the re-fetch below reads [Namespace] and [Name] of whatever
    [Create] returned. *)
Definition CreateJob (k : Interface) (job : ptr) : M (ptr * option error) :=
  let* j := load job in
  let* (job, err) := clientCreate k (Jobs (Namespace j)) job in
  let refetch : M (ptr * option error) :=
    let* j := load job in
    let* (job, err) := clientGet k (Jobs (Namespace j)) (Name j) in
    match err with
    | Some e => ret (nil_ptr, Some e)
    | None => ret (job, None)
    end in
  match err with
  | Some e =>
      if negb (IsAlreadyExists e)
      then ret (nil_ptr, Some (Wrapf e "could not create Job"))
      else refetch
  | None => refetch
  end.

Definition GetJob (k : Interface) (name namespace : string) : M (ptr * option error) :=
  let* (job, err) := clientGet k (Jobs namespace) name in
  match err with
  | Some e => ret (nil_ptr, Some e)
  | None => ret (job, None)
  end.

Definition DeleteJob (k : Interface) (name namespace : string) : M (option error) :=
  let* err := clientDelete k (Jobs namespace) name in
  match err with
  | Some e => if IsNotFound e then ret None else ret err
  | None => ret err
  end.

(** [p.Items] dereferences the returned list object; a nil slice and an
    empty slice are both the empty list. *)
Definition ListPods (k : Interface) (namespace : string) : M (list Pod * option error) :=
  let* (p, err) := clientList k (Pods namespace) in
  match err with
  | Some e => ret ([], Some e)
  | None => match p with
            | Some items => ret (items, None)
            | None => panic
            end
  end.

Definition DeletePod (k : Interface) (name namespace : string) : M (option error) :=
  let* err := clientDelete k (Pods namespace) name in
  match err with
  | Some e => if IsNotFound e then ret None else ret err
  | None => ret err
  end.

Definition GetPV (k : Interface) (name : string) : M (ptr * option error) :=
  let* (pv, err) := clientGet k PersistentVolumes name in
  match err with
  | Some e => ret (nil_ptr, Some e)
  | None => ret (pv, None)
  end.

(** The [for] loop of UpdatePV; [fuel] bounds the number of iterations. *)
Fixpoint UpdatePV_for (fuel : nat) (k : Interface) (pv : ptr)
    (updateFunc : PersistentVolume -> PersistentVolume) : M (ptr * option error) :=
  match fuel with
  | O => spin
  | S fuel =>
      let* (updatedPV, err) := clientUpdate k PersistentVolumes pv in
      match err with
      | None => ret (updatedPV, None)
      | Some e =>
          if negb (IsConflict e) then ret (nil_ptr, Some e) else
          let* _ := Debugf "got a conflict, retrying..." in
          let* o := load pv in
          let* (pv, err) := clientGet k PersistentVolumes (Name o) in
          match err with
          | Some e => ret (nil_ptr, Some e)
          | None =>
              let* _ := call updateFunc pv in
              UpdatePV_for fuel k pv updateFunc
          end
      end
  end.

Definition UpdatePV (fuel : nat) (k : Interface) (pv : ptr)
    (updateFunc : PersistentVolume -> PersistentVolume) : M (ptr * option error) :=
  let* o := load pv in
  let* (pv, err) := clientGet k PersistentVolumes (Name o) in
  match err with
  | Some e => ret (nil_ptr, Some (Wrapf e "could not get PVC to update"))
  | None =>
      let* _ := call updateFunc pv in
      UpdatePV_for fuel k pv updateFunc
  end.

(** CreatePVC creates a PVC and returns it after the server has processed it;
    [pvc] is reassigned by [Create] exactly as [job] is in [CreateJob]. *)
Definition CreatePVC (k : Interface) (pvc : ptr) : M (ptr * option error) :=
  let* c := load pvc in
  let* (pvc, err) := clientCreate k (PersistentVolumeClaims (Namespace c)) pvc in
  let refetch : M (ptr * option error) :=
    let* c := load pvc in
    let* (pvc, err) := clientGet k (PersistentVolumeClaims (Namespace c)) (Name c) in
    match err with
    | Some e => ret (nil_ptr, Some e)
    | None => ret (pvc, None)
    end in
  match err with
  | Some e =>
      if negb (IsAlreadyExists e)
      then ret (nil_ptr, Some (Wrapf e "could not create PVC"))
      else refetch
  | None => refetch
  end.

Definition GetPVC (k : Interface) (name namespace : string) : M (ptr * option error) :=
  let* (pvc, err) := clientGet k (PersistentVolumeClaims namespace) name in
  match err with
  | Some e => ret (nil_ptr, Some e)
  | None => ret (pvc, None)
  end.

Definition ListPVCs (k : Interface) (namespace : string)
    : M (list PersistentVolumeClaim * option error) :=
  let* (p, err) := clientList k (PersistentVolumeClaims namespace) in
  match err with
  | Some e => ret ([], Some e)
  | None => match p with
            | Some items => ret (items, None)
            | None => panic
            end
  end.

Definition DeletePVC (k : Interface) (name namespace : string) : M (option error) :=
  clientDelete k (PersistentVolumeClaims namespace) name.

Fixpoint UpdatePVC_for (fuel : nat) (k : Interface) (pvc : ptr)
    (updateFunc : PersistentVolumeClaim -> PersistentVolumeClaim) : M (ptr * option error) :=
  match fuel with
  | O => spin
  | S fuel =>
      let* c := load pvc in
      let* (updatedPVC, err) := clientUpdate k (PersistentVolumeClaims (Namespace c)) pvc in
      match err with
      | None => ret (updatedPVC, None)
      | Some e =>
          if negb (IsConflict e) then ret (nil_ptr, Some e) else
          let* _ := Debugf "got a conflict, retrying..." in
          let* c := load pvc in
          let* (pvc, err) := clientGet k (PersistentVolumeClaims (Namespace c)) (Name c) in
          match err with
          | Some e => ret (nil_ptr, Some e)
          | None =>
              let* _ := call updateFunc pvc in
              UpdatePVC_for fuel k pvc updateFunc
          end
      end
  end.

Definition UpdatePVC (fuel : nat) (k : Interface) (pvc : ptr)
    (updateFunc : PersistentVolumeClaim -> PersistentVolumeClaim) : M (ptr * option error) :=
  let* c := load pvc in
  let* (pvc, err) := clientGet k (PersistentVolumeClaims (Namespace c)) (Name c) in
  match err with
  | Some e => ret (nil_ptr, Some (Wrapf e "could not get PVC to update"))
  | None =>
      let* _ := call updateFunc pvc in
      UpdatePVC_for fuel k pvc updateFunc
  end.

Definition GetNamespace (k : Interface) (name : string) : M (ptr * option error) :=
  let* (ns, err) := clientGet k Namespaces name in
  match err with
  | Some e => ret (nil_ptr, Some e)
  | None => ret (ns, None)
  end.

Definition ListNamespaces (k : Interface) : M (list NamespaceObj * option error) :=
  let* (n, err) := clientList k Namespaces in
  match err with
  | Some e => ret ([], Some e)
  | None => match n with
            | Some items => ret (items, None)
            | None => panic
            end
  end.

Fixpoint UpdateNamespace_for (fuel : nat) (k : Interface) (ns : ptr)
    (updateFunc : NamespaceObj -> NamespaceObj) : M (ptr * option error) :=
  match fuel with
  | O => spin
  | S fuel =>
      let* (updatedNS, err) := clientUpdate k Namespaces ns in
      match err with
      | None => ret (updatedNS, None)
      | Some e =>
          if negb (IsConflict e) then ret (nil_ptr, Some e) else
          let* _ := Debugf "got a conflict, retrying..." in
          let* o := load ns in
          let* (ns, err) := clientGet k Namespaces (Name o) in
          match err with
          | Some e => ret (nil_ptr, Some e)
          | None =>
              let* _ := call updateFunc ns in
              UpdateNamespace_for fuel k ns updateFunc
          end
      end
  end.

Definition UpdateNamespace (fuel : nat) (k : Interface) (ns : ptr)
    (updateFunc : NamespaceObj -> NamespaceObj) : M (ptr * option error) :=
  let* o := load ns in
  let* (ns, err) := clientGet k Namespaces (Name o) in
  match err with
  | Some e => ret (nil_ptr, Some (Wrapf e "could not get PVC to update"))
  | None =>
      let* _ := call updateFunc ns in
      UpdateNamespace_for fuel k ns updateFunc
  end.

(** ** The three update operations as one routine

    [UpdatePV], [UpdatePVC] and [UpdateNamespace] differ only in the typed
    client they address: the one for claims is chosen by the namespace of the
    object at hand.  [updateWithRetry] is the common routine; the lemma
    [runUpdate_generic] below shows that each source function is an instance
    of it, and the properties of the loop are proved once. *)

Inductive UpdateOp : Type := OpUpdatePV | OpUpdatePVC | OpUpdateNamespace.

Definition runUpdate (op : UpdateOp)
    : nat -> Interface -> ptr -> (Object -> Object) -> M (ptr * option error) :=
  match op with
  | OpUpdatePV => UpdatePV
  | OpUpdatePVC => UpdatePVC
  | OpUpdateNamespace => UpdateNamespace
  end.

(** The typed client an update operation uses for the object [o]. *)
Definition clientOf (op : UpdateOp) (o : Object) : resource :=
  match op with
  | OpUpdatePV => PersistentVolumes
  | OpUpdatePVC => PersistentVolumeClaims (Namespace o)
  | OpUpdateNamespace => Namespaces
  end.

Definition conflictMsg : string := "got a conflict, retrying...".
Definition fetchMsg : string := "could not get PVC to update".

Fixpoint retryLoop (via : Object -> resource) (fuel : nat) (k : Interface) (p : ptr)
    (updateFunc : Object -> Object) : M (ptr * option error) :=
  match fuel with
  | O => spin
  | S fuel =>
      let* o := load p in
      let* (updated, err) := clientUpdate k (via o) p in
      match err with
      | None => ret (updated, None)
      | Some e =>
          if negb (IsConflict e) then ret (nil_ptr, Some e) else
          let* _ := Debugf conflictMsg in
          let* o := load p in
          let* (p, err) := clientGet k (via o) (Name o) in
          match err with
          | Some e => ret (nil_ptr, Some e)
          | None =>
              let* _ := call updateFunc p in
              retryLoop via fuel k p updateFunc
          end
      end
  end.

Definition updateWithRetry (via : Object -> resource) (fuel : nat) (k : Interface) (p : ptr)
    (updateFunc : Object -> Object) : M (ptr * option error) :=
  let* o := load p in
  let* (p, err) := clientGet k (via o) (Name o) in
  match err with
  | Some e => ret (nil_ptr, Some (Wrapf e fetchMsg))
  | None =>
      let* _ := call updateFunc p in
      retryLoop via fuel k p updateFunc
  end.

(** ** Observing runs *)

Fixpoint count (sel : event -> bool) (t : list event) : nat :=
  match t with
  | [] => 0
  | ev :: t => (if sel ev then 1 else 0) + count sel t
  end.

Definition isGet (ev : event) : bool :=
  match ev with EvGet _ _ _ => true | _ => false end.

Definition isUpdate (ev : event) : bool :=
  match ev with EvUpdate _ _ _ => true | _ => false end.

Definition isUpdateFunc (ev : event) : bool :=
  match ev with EvUpdateFunc _ _ _ => true | _ => false end.

(** The error a fetch or an update attempt came back with, if any. *)
Definition failure (ev : event) : option error :=
  match ev with
  | EvGet _ _ (_, Some e) => Some e
  | EvUpdate _ _ (_, Some e) => Some e
  | _ => None
  end.

(** The event is an update attempt refused with a Conflict. *)
Definition conflictOnUpdate (ev : event) : bool :=
  match ev with
  | EvUpdate _ _ (_, Some e) => IsConflict e
  | _ => false
  end.

(** The object a returned pointer refers to. *)
Definition pointee (p : ptr) (w : World) : option Object :=
  match p with
  | Some l => heap w !! l
  | None => None
  end.

(** How a call of an update operation ends. *)
Inductive verdict : Type :=
| Accepted (updated : option Object)   (* [return updatedPV, nil] *)
| Failed (e : error)                   (* [return nil, err] *)
| Panicked
| Spinning.                            (* still looping when the fuel ran out *)

Definition describes (r : res (ptr * option error)) (v : verdict) : Prop :=
  match v with
  | Accepted u => exists p w', r = Val (p, None) w' /\ pointee p w' = u /\ (u = None -> p = nil_ptr)
  | Failed e => exists w', r = Val (nil_ptr, Some e) w'
  | Panicked => exists w', r = Crash w'
  | Spinning => exists w', r = Timeout w'
  end.

(** The events of the [for] loop entered with [*pv = cur]; [base] is the size
    of the heap when the operation was called, so every location at or above
    [base] was allocated by one of its own fetches. *)
Inductive Attempts (op : UpdateOp) (f : Object -> Object) (base : nat)
    : Object -> list event -> verdict -> Prop :=
| att_spin cur :
    Attempts op f base cur [] Spinning
| att_accept cur u :
    Attempts op f base cur [EvUpdate (clientOf op cur) cur (u, None)] (Accepted u)
| att_fail cur res e :
    IsConflict e = false ->
    Attempts op f base cur [EvUpdate (clientOf op cur) cur (res, Some e)] (Failed e)
| att_refetch_fail cur res c res' e :
    IsConflict c = true ->
    Attempts op f base cur
      [EvUpdate (clientOf op cur) cur (res, Some c); EvDebugf conflictMsg;
       EvGet (clientOf op cur) (Name cur) (res', Some e)] (Failed e)
| att_refetch_nil cur res c :
    IsConflict c = true ->
    Attempts op f base cur
      [EvUpdate (clientOf op cur) cur (res, Some c); EvDebugf conflictMsg;
       EvGet (clientOf op cur) (Name cur) (None, None)] Panicked
| att_retry cur res c e l evs v :
    IsConflict c = true ->
    base <= l ->
    Attempts op f base (f e) evs v ->
    Attempts op f base cur
      (EvUpdate (clientOf op cur) cur (res, Some c) :: EvDebugf conflictMsg ::
       EvGet (clientOf op cur) (Name cur) (Some e, None) :: EvUpdateFunc l e (f e) :: evs) v.

(** The events of a whole update operation called with an entity [given]. *)
Inductive Run (op : UpdateOp) (f : Object -> Object) (base : nat)
    : Object -> list event -> verdict -> Prop :=
| run_fetch_fail given res e :
    Run op f base given
      [EvGet (clientOf op given) (Name given) (res, Some e)] (Failed (Wrapf e fetchMsg))
| run_fetch_nil given :
    Run op f base given
      [EvGet (clientOf op given) (Name given) (None, None)] Panicked
| run_loop given e l evs v :
    base <= l ->
    Attempts op f base (f e) evs v ->
    Run op f base given
      (EvGet (clientOf op given) (Name given) (Some e, None) :: EvUpdateFunc l e (f e) :: evs) v.

(** [Converged op f a N u evs]: [evs] consists of [N] fetch / mutate / submit
    cycles refused with a Conflict followed by one accepted cycle whose
    update returned [u]; [a] is the object whose name (and namespace)
    addresses the first fetch.  In every cycle the mutation is applied to the
    object just fetched and its result is what is submitted. *)
Inductive Converged (op : UpdateOp) (f : Object -> Object)
    : Object -> nat -> Object -> list event -> Prop :=
| converged_accept a e l u :
    Converged op f a 0 u
      [EvGet (clientOf op a) (Name a) (Some e, None); EvUpdateFunc l e (f e);
       EvUpdate (clientOf op (f e)) (f e) (Some u, None)]
| converged_conflict a e l res c n u evs :
    IsConflict c = true ->
    Converged op f (f e) n u evs ->
    Converged op f a (S n) u
      (EvGet (clientOf op a) (Name a) (Some e, None) :: EvUpdateFunc l e (f e) ::
       EvUpdate (clientOf op (f e)) (f e) (res, Some c) :: EvDebugf conflictMsg :: evs).

(** The worlds that the primitive steps lead to. *)
Definition logged (ev : event) (w : World) : World :=
  {| trace := trace w ++ [ev]; heap := heap w |}.

Definition allocated (o : option Object) (w : World) : World :=
  {| trace := trace w; heap := heap w ++ option_list o |}.

Definition fresh (o : option Object) (w : World) : ptr :=
  match o with
  | Some _ => Some (length (heap w))
  | None => nil_ptr
  end.

Definition mutated (l : loc) (before after : Object) (w : World) : World :=
  {| trace := trace w ++ [EvUpdateFunc l before after]; heap := <[l := after]> (heap w) |}.

(** A run has ended (returned or panicked) rather than exhausted its fuel. *)
Definition terminated {A : Type} (r : res A) : Prop :=
  match r with
  | Timeout _ => False
  | _ => True
  end.

(** ** Families of operations *)

Inductive CreateOp : Type := OpCreateJob | OpCreatePVC.

Definition runCreate (op : CreateOp) : Interface -> ptr -> M (ptr * option error) :=
  match op with
  | OpCreateJob => CreateJob
  | OpCreatePVC => CreatePVC
  end.

Definition createClient (op : CreateOp) (namespace : string) : resource :=
  match op with
  | OpCreateJob => Jobs namespace
  | OpCreatePVC => PersistentVolumeClaims namespace
  end.

Definition createMsg (op : CreateOp) : string :=
  match op with
  | OpCreateJob => "could not create Job"
  | OpCreatePVC => "could not create PVC"
  end.

(** The re-fetch that ends a create operation, from the world [w1] reached
    after the backend's [Create] returned the object [created]. *)
Definition refetched (op : CreateOp) (k : Interface) (created : option Object) (w1 : World)
    : res (option nat * option error) :=
  match created with
  | None => Crash w1
  | Some o =>
      let r := createClient op (Namespace o) in
      let answer := Get k r (trace w1) (Name o) in
      let w2 := allocated (fst answer) (logged (EvGet r (Name o) answer) w1) in
      match snd answer with
      | Some e => Val (nil_ptr, Some e) w2
      | None => Val (fresh (fst answer) w1, None) w2
      end
  end.

Definition createKind (op : CreateOp) : string :=
  match op with
  | OpCreateJob => "Job"
  | OpCreatePVC => "PVC"
  end.

Inductive DeleteOp : Type := OpDeleteJob | OpDeletePod | OpDeletePVC.

Definition runDelete (op : DeleteOp) : Interface -> string -> string -> M (option error) :=
  match op with
  | OpDeleteJob => DeleteJob
  | OpDeletePod => DeletePod
  | OpDeletePVC => DeletePVC
  end.

Definition deleteClient (op : DeleteOp) (namespace : string) : resource :=
  match op with
  | OpDeleteJob => Jobs namespace
  | OpDeletePod => Pods namespace
  | OpDeletePVC => PersistentVolumeClaims namespace
  end.

Inductive ListOp : Type :=
| OpListPods (namespace : string)
| OpListPVCs (namespace : string)
| OpListNamespaces.

Definition runList (op : ListOp) (k : Interface) : M (list Object * option error) :=
  match op with
  | OpListPods namespace => ListPods k namespace
  | OpListPVCs namespace => ListPVCs k namespace
  | OpListNamespaces => ListNamespaces k
  end.

Definition listClient (op : ListOp) : resource :=
  match op with
  | OpListPods namespace => Pods namespace
  | OpListPVCs namespace => PersistentVolumeClaims namespace
  | OpListNamespaces => Namespaces
  end.

Inductive GetOp : Type :=
| OpGetJob (name namespace : string)
| OpGetPV (name : string)
| OpGetPVC (name namespace : string)
| OpGetNamespace (name : string).

Definition runGet (op : GetOp) (k : Interface) : M (ptr * option error) :=
  match op with
  | OpGetJob name namespace => GetJob k name namespace
  | OpGetPV name => GetPV k name
  | OpGetPVC name namespace => GetPVC k name namespace
  | OpGetNamespace name => GetNamespace k name
  end.

Definition getClient (op : GetOp) : resource :=
  match op with
  | OpGetJob _ namespace => Jobs namespace
  | OpGetPV _ => PersistentVolumes
  | OpGetPVC _ namespace => PersistentVolumeClaims namespace
  | OpGetNamespace _ => Namespaces
  end.

Definition getName (op : GetOp) : string :=
  match op with
  | OpGetJob name _ | OpGetPV name | OpGetPVC name _ | OpGetNamespace name => name
  end.

(** ** Context carried by an error *)

(** [needle] occurs in [text]. *)
Definition mentions (needle text : string) : bool :=
  match index 0 needle text with
  | Some _ => true
  | None => false
  end.

(** [err] is a wrapped error whose message names the operation and the
    resource kind that failed. *)
Definition hasContext (operation kind : string) (err : error) : Prop :=
  exists cause msg,
    err = withMessage cause msg /\ mentions operation msg = true /\ mentions kind msg = true.

(** ** Simulated backends *)

#[global] Instance resource_eq_dec : EqDecision resource.
Proof. solve_decision. Defined.

Definition namespaceOf (r : resource) : string :=
  match r with
  | Jobs namespace | Pods namespace | PersistentVolumeClaims namespace => namespace
  | PersistentVolumes | Namespaces => ""
  end.

Definition version (n : nat) : string := NilZero.string_of_uint (Nat.to_uint n).

Definition conflictErr : error :=
  StatusError StatusReasonConflict "the object has been modified".
Definition alreadyExistsErr : error :=
  StatusError StatusReasonAlreadyExists "already exists".
Definition notFoundErr : error :=
  StatusError StatusReasonNotFound "not found".
Definition forbiddenErr : error :=
  StatusError StatusReasonForbidden "forbidden".
Definition emptyNameErr : error :=
  errorString "resource name may not be empty".

(** The object a fetch of [name] yields after [n] update attempts. *)
Definition snapshot (r : resource) (name : string) (n : nat) : Object :=
  {| Name := name; Namespace := namespaceOf r; ResourceVersion := version n;
     Labels := []; Spec := "" |}.

Definition stamp (n : nat) (o : Object) : Object :=
  {| Name := Name o; Namespace := Namespace o; ResourceVersion := version n;
     Labels := Labels o; Spec := Spec o |}.

(** A backend that refuses the first [N] update attempts with a Conflict and
    accepts every later one; fetches always succeed. *)
Definition flaky (N : nat) : Interface :=
  {| Create := fun r h o => (Some o, None);
     Get := fun r h name => (Some (snapshot r name (count isUpdate h)), None);
     List := fun r h => (Some [], None);
     Delete := fun r h name => None;
     Update := fun r h o =>
       if Nat.ltb (count isUpdate h) N
       then (Some emptyObject, Some conflictErr)
       else (Some (stamp (S (count isUpdate h)) o), None) |}.

(** A backend on which the entity is perpetually contended. *)
Definition contended : Interface :=
  {| Create := fun r h o => (Some o, None);
     Get := fun r h name => (Some (snapshot r name (count isUpdate h)), None);
     List := fun r h => (Some [], None);
     Delete := fun r h name => None;
     Update := fun r h o => (Some emptyObject, Some conflictErr) |}.

(** A backend whose every call fails with [e]; like the typed clients, a
    failed call still returns the (empty) object it would have decoded
    into. *)
Definition broken (e : error) : Interface :=
  {| Create := fun r h o => (Some emptyObject, Some e);
     Get := fun r h name => (Some emptyObject, Some e);
     List := fun r h => (Some [], Some e);
     Delete := fun r h name => Some e;
     Update := fun r h o => (Some emptyObject, Some e) |}.

(** A backend whose fetches succeed and whose every update attempt fails
    with [e]. *)
Definition readOnly (e : error) : Interface :=
  {| Create := fun r h o => (Some emptyObject, Some e);
     Get := fun r h name => (Some (snapshot r name (count isUpdate h)), None);
     List := fun r h => (Some [], None);
     Delete := fun r h name => Some e;
     Update := fun r h o => (Some emptyObject, Some e) |}.

(** A backend that lets the first fetch through, refuses every update with a
    Conflict and answers every later fetch with [e]. *)
Definition refetchFails (e : error) : Interface :=
  {| Create := fun r h o => (Some o, None);
     Get := fun r h name =>
       if Nat.eqb (count isUpdate h) 0
       then (Some (snapshot r name 0), None)
       else (Some emptyObject, Some e);
     List := fun r h => (Some [], None);
     Delete := fun r h name => None;
     Update := fun r h o => (Some emptyObject, Some conflictErr) |}.

Fixpoint lookupObject (r : resource) (name : string) (store : list (resource * Object))
    : option Object :=
  match store with
  | [] => None
  | (r', o) :: store =>
      if bool_decide (r' = r) && String.eqb (Name o) name
      then Some o
      else lookupObject r name store
  end.

(** The objects created so far, latest first. *)
Fixpoint created (h : list event) : list (resource * Object) :=
  match h with
  | [] => []
  | EvCreate r _ (Some o, None) :: h => created h ++ [(r, o)]
  | _ :: h => created h
  end.

Fixpoint itemsOf (r : resource) (store : list (resource * Object)) : list Object :=
  match store with
  | [] => []
  | (r', o) :: store => if bool_decide (r' = r) then o :: itemsOf r store else itemsOf r store
  end.

(** A small cluster behind the typed clients of client-go: it holds the
    objects of [init] and those created so far.  As in client-go, a failed
    call returns the empty object it would have decoded the answer into
    together with the error, and a fetch with an empty name is refused. *)
Definition clientset (init : list (resource * Object)) : Interface :=
  {| Create := fun r h o =>
       match lookupObject r (Name o) (created h ++ init) with
       | Some _ => (Some emptyObject, Some alreadyExistsErr)
       | None => (Some (stamp 1 o), None)
       end;
     Get := fun r h name =>
       if String.eqb name ""
       then (Some emptyObject, Some emptyNameErr)
       else match lookupObject r name (created h ++ init) with
            | Some o => (Some o, None)
            | None => (Some emptyObject, Some notFoundErr)
            end;
     List := fun r h => (Some (itemsOf r (created h ++ init)), None);
     Delete := fun r h name =>
       match lookupObject r name (created h ++ init) with
       | Some _ => None
       | None => Some notFoundErr
       end;
     Update := fun r h o =>
       match lookupObject r (Name o) (created h ++ init) with
       | Some _ => (Some o, None)
       | None => (Some emptyObject, Some notFoundErr)
       end |}.

(** The older fake clientset returns [nil] instead of an empty object when a
    call fails. *)
Definition fakeClientset (init : list (resource * Object)) : Interface :=
  {| Create := fun r h o =>
       match lookupObject r (Name o) (created h ++ init) with
       | Some _ => (None, Some alreadyExistsErr)
       | None => (Some (stamp 1 o), None)
       end;
     Get := fun r h name =>
       match lookupObject r name (created h ++ init) with
       | Some o => (Some o, None)
       | None => (None, Some notFoundErr)
       end;
     List := fun r h => (Some (itemsOf r (created h ++ init)), None);
     Delete := fun r h name =>
       match lookupObject r name (created h ++ init) with
       | Some _ => None
       | None => Some notFoundErr
       end;
     Update := fun r h o =>
       match lookupObject r (Name o) (created h ++ init) with
       | Some _ => (Some o, None)
       | None => (None, Some notFoundErr)
       end |}.

(** Sample objects and worlds. *)
Definition sample (name namespace : string) : Object :=
  {| Name := name; Namespace := namespace; ResourceVersion := "7";
     Labels := [("app", "db")]; Spec := "spec" |}.

Definition stale (name namespace : string) : Object :=
  {| Name := name; Namespace := namespace; ResourceVersion := "1";
     Labels := [("stale", "yes")]; Spec := "old spec" |}.

Definition setLabel (key value : string) (o : Object) : Object :=
  {| Name := Name o; Namespace := Namespace o; ResourceVersion := ResourceVersion o;
     Labels := (key, value) :: Labels o; Spec := Spec o |}.

(** A world in which the caller holds one object, at location 0. *)
Definition holding (o : Object) : World := {| trace := []; heap := [o] |}.

(** A world in which the caller holds two objects, at locations 0 and 1. *)
Definition holding2 (o1 o2 : Object) : World := {| trace := []; heap := [o1; o2] |}.

Definition emptyWorld : World := {| trace := []; heap := [] |}.

(** ** Further observations on runs *)





(** A mutation that renames the object. *)
Definition rename (name : string) (o : Object) : Object :=
  {| Name := name; Namespace := Namespace o; ResourceVersion := ResourceVersion o;
     Labels := Labels o; Spec := Spec o |}.


(** * Properties *)

(** ** Equations of the primitive steps *)

Lemma bind_unfold {A B : Type} (m : M A) (g : A -> M B) (w : World) :
  bind m g w =
  match m w with
  | Val a w' => g a w'
  | Crash w' => Crash w'
  | Timeout w' => Timeout w'
  end.
Proof. reflexivity. Qed.

Lemma bind_ext {A B : Type} (m : M A) (g g' : A -> M B) (w : World) :
  (forall a w', g a w' = g' a w') -> bind m g w = bind m g' w.
Proof. intros H. unfold bind. destruct (m w); auto. Qed.

Lemma load_inv (p : ptr) (w : World) :
  (exists l o, p = Some l /\ heap w !! l = Some o /\ load p w = Val o w) \/
  (pointee p w = None /\ load p w = Crash w).
Proof.
  destruct p as [l|]; simpl.
  - destruct (heap w !! l) as [o|] eqn:E; [left; eauto | right; auto].
  - right; auto.
Qed.

Lemma load_eq (l : loc) (o : Object) (w : World) :
  heap w !! l = Some o -> load (Some l) w = Val o w.
Proof. intros H. simpl. rewrite H. reflexivity. Qed.

Lemma Debugf_eq (msg : string) (w : World) :
  Debugf msg w = Val tt (logged (EvDebugf msg) w).
Proof. reflexivity. Qed.

Lemma clientGet_eq (k : Interface) (r : resource) (name : string) (w : World) :
  clientGet k r name w =
  Val (fresh (fst (Get k r (trace w) name)) w, snd (Get k r (trace w) name))
      (allocated (fst (Get k r (trace w) name)) (logged (EvGet r name (Get k r (trace w) name)) w)).
Proof.
  unfold clientGet, bind, history, emit, new, ret, allocated, logged, fresh. simpl.
  destruct (Get k r (trace w) name) as [[x|] err]; simpl; [reflexivity|].
  rewrite app_nil_r. reflexivity.
Qed.

Lemma clientUpdate_eq (k : Interface) (r : resource) (l : loc) (o : Object) (w : World) :
  heap w !! l = Some o ->
  clientUpdate k r (Some l) w =
  Val (fresh (fst (Update k r (trace w) o)) w, snd (Update k r (trace w) o))
      (allocated (fst (Update k r (trace w) o)) (logged (EvUpdate r o (Update k r (trace w) o)) w)).
Proof.
  intros H. unfold clientUpdate. rewrite bind_unfold, (load_eq _ _ _ H).
  unfold bind, history, emit, new, ret, allocated, logged, fresh. simpl.
  destruct (Update k r (trace w) o) as [[x|] err]; simpl; [reflexivity|].
  rewrite app_nil_r. reflexivity.
Qed.

Lemma clientUpdate_crash (k : Interface) (r : resource) (p : ptr) (w : World) :
  load p w = Crash w -> clientUpdate k r p w = Crash w.
Proof. intros H. unfold clientUpdate. rewrite bind_unfold, H. reflexivity. Qed.

Lemma clientCreate_eq (k : Interface) (r : resource) (l : loc) (o : Object) (w : World) :
  heap w !! l = Some o ->
  clientCreate k r (Some l) w =
  Val (fresh (fst (Create k r (trace w) o)) w, snd (Create k r (trace w) o))
      (allocated (fst (Create k r (trace w) o)) (logged (EvCreate r o (Create k r (trace w) o)) w)).
Proof.
  intros H. unfold clientCreate. rewrite bind_unfold, (load_eq _ _ _ H).
  unfold bind, history, emit, new, ret, allocated, logged, fresh. simpl.
  destruct (Create k r (trace w) o) as [[x|] err]; simpl; [reflexivity|].
  rewrite app_nil_r. reflexivity.
Qed.

Lemma clientList_eq (k : Interface) (r : resource) (w : World) :
  clientList k r w = Val (List k r (trace w)) (logged (EvList r (List k r (trace w))) w).
Proof. reflexivity. Qed.

Lemma clientDelete_eq (k : Interface) (r : resource) (name : string) (w : World) :
  clientDelete k r name w =
  Val (Delete k r (trace w) name) (logged (EvDelete r name (Delete k r (trace w) name)) w).
Proof. reflexivity. Qed.

Lemma call_eq (f : Object -> Object) (l : loc) (o : Object) (w : World) :
  heap w !! l = Some o -> call f (Some l) w = Val tt (mutated l o (f o) w).
Proof. intros H. simpl. rewrite H. reflexivity. Qed.

Lemma lookup_fresh (x : Object) (h : list Object) : (h ++ [x]) !! length h = Some x.
Proof. apply list_lookup_middle. reflexivity. Qed.

Lemma insert_fresh (x y : Object) (h : list Object) : <[length h := y]> (h ++ [x]) = h ++ [y].
Proof.
  rewrite insert_app_r_alt by lia. rewrite Nat.sub_diag. reflexivity.
Qed.

Lemma pointee_fresh (o : option Object) (w w' : World) :
  heap w' = heap w -> pointee (fresh o w) (allocated o w') = o.
Proof.
  intros H. destruct o as [x|]; simpl; [|reflexivity].
  rewrite H. apply lookup_fresh.
Qed.

(** ** The source functions are instances of the common routine *)

Lemma UpdatePV_for_generic (fuel : nat) (k : Interface) (f : Object -> Object) :
  forall p w, UpdatePV_for fuel k p f w = retryLoop (clientOf OpUpdatePV) fuel k p f w.
Proof.
  induction fuel as [|fuel IH]; intros p w; [reflexivity|].
  cbn [UpdatePV_for retryLoop clientOf].
  rewrite (bind_unfold (load p)).
  destruct (load_inv p w) as [(l & o & -> & Hl & Hw)|[Hn Hw]]; rewrite Hw.
  - apply bind_ext. intros [u [e|]] w1; [|reflexivity].
    destruct (negb (IsConflict e)); [reflexivity|].
    apply bind_ext; intros _ w2. apply bind_ext; intros o' w3.
    apply bind_ext; intros [p' [e'|]] w4; [reflexivity|].
    apply bind_ext; intros _ w5. apply IH.
  - rewrite bind_unfold, clientUpdate_crash; auto.
Qed.

Lemma UpdatePVC_for_generic (fuel : nat) (k : Interface) (f : Object -> Object) :
  forall p w, UpdatePVC_for fuel k p f w = retryLoop (clientOf OpUpdatePVC) fuel k p f w.
Proof.
  induction fuel as [|fuel IH]; intros p w; [reflexivity|].
  cbn [UpdatePVC_for retryLoop clientOf].
  apply bind_ext; intros c w0.
  apply bind_ext. intros [u [e|]] w1; [|reflexivity].
  destruct (negb (IsConflict e)); [reflexivity|].
  apply bind_ext; intros _ w2. apply bind_ext; intros o' w3.
  apply bind_ext; intros [p' [e'|]] w4; [reflexivity|].
  apply bind_ext; intros _ w5. apply IH.
Qed.

Lemma UpdateNamespace_for_generic (fuel : nat) (k : Interface) (f : Object -> Object) :
  forall p w,
    UpdateNamespace_for fuel k p f w = retryLoop (clientOf OpUpdateNamespace) fuel k p f w.
Proof.
  induction fuel as [|fuel IH]; intros p w; [reflexivity|].
  cbn [UpdateNamespace_for retryLoop clientOf].
  rewrite (bind_unfold (load p)).
  destruct (load_inv p w) as [(l & o & -> & Hl & Hw)|[Hn Hw]]; rewrite Hw.
  - apply bind_ext. intros [u [e|]] w1; [|reflexivity].
    destruct (negb (IsConflict e)); [reflexivity|].
    apply bind_ext; intros _ w2. apply bind_ext; intros o' w3.
    apply bind_ext; intros [p' [e'|]] w4; [reflexivity|].
    apply bind_ext; intros _ w5. apply IH.
  - rewrite bind_unfold, clientUpdate_crash; auto.
Qed.

Lemma runUpdate_generic (op : UpdateOp) (fuel : nat) (k : Interface) (p : ptr)
    (f : Object -> Object) (w : World) :
  runUpdate op fuel k p f w = updateWithRetry (clientOf op) fuel k p f w.
Proof.
  destruct op; cbn [runUpdate]; unfold UpdatePV, UpdatePVC, UpdateNamespace, updateWithRetry;
    apply bind_ext; intros o w0; cbn [clientOf];
    apply bind_ext; intros [p' [e'|]] w1; try reflexivity;
    apply bind_ext; intros _ w2.
  - apply UpdatePV_for_generic.
  - apply UpdatePVC_for_generic.
  - apply UpdateNamespace_for_generic.
Qed.

(** ** Every run of an update operation follows the grammar *)

Lemma describes_accept (u : option Object) (w w1 : World) :
  heap w1 = heap w ->
  describes (Val (fresh u w, None) (allocated u w1)) (Accepted u).
Proof.
  intros H. exists (fresh u w), (allocated u w1). split; [reflexivity|].
  split; [apply pointee_fresh; exact H|]. intros ->. reflexivity.
Qed.

Lemma retryLoop_run (op : UpdateOp) (k : Interface) (f : Object -> Object) (base : nat) :
  forall fuel w l cur,
    heap w !! l = Some cur ->
    base <= length (heap w) ->
    exists evs tail v,
      trace (world_of (retryLoop (clientOf op) fuel k (Some l) f w)) = trace w ++ evs /\
      heap (world_of (retryLoop (clientOf op) fuel k (Some l) f w)) = heap w ++ tail /\
      Attempts op f base cur evs v /\
      describes (retryLoop (clientOf op) fuel k (Some l) f w) v.
Proof.
  induction fuel as [|fuel IH]; intros w l cur Hl Hbase.
  { exists [], [], Spinning. simpl. rewrite !app_nil_r.
    repeat split; [constructor | exists w; reflexivity]. }
  cbn [retryLoop].
  rewrite bind_unfold, (load_eq _ _ _ Hl), bind_unfold, (clientUpdate_eq _ _ _ _ _ Hl).
  destruct (Update k (clientOf op cur) (trace w) cur) as [u [c|]] eqn:EU; cbn [fst snd].
  2:{ exists [EvUpdate (clientOf op cur) cur (u, None)], (option_list u), (Accepted u).
      simpl. repeat split; [constructor | apply describes_accept; reflexivity]. }
  destruct (IsConflict c) eqn:EC; cbn [negb].
  2:{ exists [EvUpdate (clientOf op cur) cur (u, Some c)], (option_list u), (Failed c).
      simpl. repeat split; [constructor; exact EC | eexists; reflexivity]. }
  rewrite bind_unfold, Debugf_eq.
  set (w2 := logged (EvDebugf conflictMsg)
               (allocated u (logged (EvUpdate (clientOf op cur) cur (u, Some c)) w))).
  assert (Hh2 : heap w2 = heap w ++ option_list u) by reflexivity.
  assert (Ht2 : trace w2 = trace w ++ [EvUpdate (clientOf op cur) cur (u, Some c);
                                       EvDebugf conflictMsg]).
  { subst w2. simpl. rewrite <- app_assoc. reflexivity. }
  assert (Hl2 : heap w2 !! l = Some cur).
  { rewrite Hh2. apply lookup_app_l_Some. exact Hl. }
  clearbody w2.
  rewrite bind_unfold, (load_eq _ _ _ Hl2), bind_unfold, clientGet_eq.
  destruct (Get k (clientOf op cur) (trace w2) (Name cur)) as [g [e|]] eqn:EG; cbn [fst snd].
  { exists [EvUpdate (clientOf op cur) cur (u, Some c); EvDebugf conflictMsg;
            EvGet (clientOf op cur) (Name cur) (g, Some e)], (option_list u ++ option_list g),
           (Failed e).
    simpl. rewrite Ht2, Hh2, <- !app_assoc. simpl.
    repeat split; [constructor; exact EC | eexists; reflexivity]. }
  destruct g as [e1|].
  2:{ exists [EvUpdate (clientOf op cur) cur (u, Some c); EvDebugf conflictMsg;
              EvGet (clientOf op cur) (Name cur) (None, None)], (option_list u),
             Panicked.
      simpl. rewrite Ht2, Hh2, <- !app_assoc, app_nil_r. simpl.
      repeat split; [constructor; exact EC | eexists; reflexivity]. }
  set (w3 := allocated (Some e1) (logged (EvGet (clientOf op cur) (Name cur) (Some e1, None)) w2)).
  assert (Hl3 : heap w3 !! length (heap w2) = Some e1) by apply lookup_fresh.
  cbn [fresh]. rewrite bind_unfold, (call_eq _ _ _ _ Hl3).
  set (w4 := mutated (length (heap w2)) e1 (f e1) w3). cbn beta iota.
  assert (Hh4 : heap w4 = heap w2 ++ [f e1]) by apply insert_fresh.
  assert (Ht4 : trace w4 = trace w ++ [EvUpdate (clientOf op cur) cur (u, Some c);
                  EvDebugf conflictMsg; EvGet (clientOf op cur) (Name cur) (Some e1, None);
                  EvUpdateFunc (length (heap w2)) e1 (f e1)]).
  { subst w4 w3. simpl. rewrite Ht2, <- !app_assoc. reflexivity. }
  assert (Hl4 : heap w4 !! length (heap w2) = Some (f e1)).
  { rewrite Hh4. apply lookup_fresh. }
  assert (Hb4 : base <= length (heap w4)).
  { rewrite Hh4, Hh2, !length_app. lia. }
  clearbody w4.
  destruct (IH w4 _ _ Hl4 Hb4) as (evs & tail & v & Htr & Hhp & Hatt & Hdes).
  exists (EvUpdate (clientOf op cur) cur (u, Some c) :: EvDebugf conflictMsg ::
          EvGet (clientOf op cur) (Name cur) (Some e1, None) ::
          EvUpdateFunc (length (heap w2)) e1 (f e1) :: evs),
         (option_list u ++ [f e1] ++ tail), v.
  split; [rewrite Htr, Ht4, <- app_assoc; reflexivity|].
  split; [rewrite Hhp, Hh4, Hh2, <- !app_assoc; reflexivity|].
  split; [|exact Hdes].
  apply att_retry; [exact EC | rewrite Hh2, length_app; lia | exact Hatt].
Qed.

Lemma updateWithRetry_run (op : UpdateOp) (k : Interface) (f : Object -> Object) (fuel : nat)
    (w : World) (l : loc) (given : Object) :
  heap w !! l = Some given ->
  exists evs tail v,
    trace (world_of (updateWithRetry (clientOf op) fuel k (Some l) f w)) = trace w ++ evs /\
    heap (world_of (updateWithRetry (clientOf op) fuel k (Some l) f w)) = heap w ++ tail /\
    Run op f (length (heap w)) given evs v /\
    describes (updateWithRetry (clientOf op) fuel k (Some l) f w) v.
Proof.
  intros Hl. unfold updateWithRetry.
  rewrite bind_unfold, (load_eq _ _ _ Hl), bind_unfold, clientGet_eq.
  destruct (Get k (clientOf op given) (trace w) (Name given)) as [g [e|]] eqn:EG; cbn [fst snd].
  { exists [EvGet (clientOf op given) (Name given) (g, Some e)], (option_list g),
           (Failed (Wrapf e fetchMsg)).
    simpl. repeat split; [constructor | eexists; reflexivity]. }
  destruct g as [e1|].
  2:{ exists [EvGet (clientOf op given) (Name given) (None, None)], [], Panicked.
      simpl. rewrite !app_nil_r. repeat split; [constructor | eexists; reflexivity]. }
  set (w1 := allocated (Some e1) (logged (EvGet (clientOf op given) (Name given) (Some e1, None)) w)).
  assert (Hl1 : heap w1 !! length (heap w) = Some e1) by apply lookup_fresh.
  cbn [fresh]. rewrite bind_unfold, (call_eq _ _ _ _ Hl1).
  set (w2 := mutated (length (heap w)) e1 (f e1) w1). cbn beta iota.
  assert (Hh2 : heap w2 = heap w ++ [f e1]) by apply insert_fresh.
  assert (Ht2 : trace w2 = trace w ++ [EvGet (clientOf op given) (Name given) (Some e1, None);
                  EvUpdateFunc (length (heap w)) e1 (f e1)]).
  { subst w2 w1. simpl. rewrite <- !app_assoc. reflexivity. }
  assert (Hl2 : heap w2 !! length (heap w) = Some (f e1)).
  { rewrite Hh2. apply lookup_fresh. }
  assert (Hb2 : length (heap w) <= length (heap w2)).
  { rewrite Hh2, length_app. lia. }
  clearbody w2.
  destruct (retryLoop_run op k f (length (heap w)) fuel w2 _ _ Hl2 Hb2)
    as (evs & tail & v & Htr & Hhp & Hatt & Hdes).
  exists (EvGet (clientOf op given) (Name given) (Some e1, None) ::
          EvUpdateFunc (length (heap w)) e1 (f e1) :: evs), ([f e1] ++ tail), v.
  split; [rewrite Htr, Ht2, <- app_assoc; reflexivity|].
  split; [rewrite Hhp, Hh2, <- !app_assoc; reflexivity|].
  split; [|exact Hdes].
  apply run_loop; [lia | exact Hatt].
Qed.

Lemma runUpdate_nil (op : UpdateOp) (k : Interface) (f : Object -> Object) (fuel : nat)
    (w : World) (p : ptr) :
  pointee p w = None -> runUpdate op fuel k p f w = Crash w.
Proof.
  intros H. rewrite runUpdate_generic. unfold updateWithRetry. rewrite bind_unfold.
  destruct (load_inv p w) as [(l & o & -> & Hl & Hw)|[Hn Hw]].
  - simpl in H. congruence.
  - rewrite Hw. reflexivity.
Qed.

Lemma runUpdate_run (op : UpdateOp) (k : Interface) (f : Object -> Object) (fuel : nat)
    (w : World) (p : ptr) (given : Object) :
  pointee p w = Some given ->
  exists evs tail v,
    trace (world_of (runUpdate op fuel k p f w)) = trace w ++ evs /\
    heap (world_of (runUpdate op fuel k p f w)) = heap w ++ tail /\
    Run op f (length (heap w)) given evs v /\
    describes (runUpdate op fuel k p f w) v.
Proof.
  intros H. destruct p as [l|]; [|discriminate]. simpl in H.
  rewrite runUpdate_generic. apply updateWithRetry_run. exact H.
Qed.

(** ** Delete *)

Lemma DeleteJob_eq (k : Interface) (name namespace : string) (w : World) :
  DeleteJob k name namespace w =
  Val (match Delete k (Jobs namespace) (trace w) name with
       | Some e => if IsNotFound e then None else Some e
       | None => None
       end)
      (logged (EvDelete (Jobs namespace) name (Delete k (Jobs namespace) (trace w) name)) w).
Proof.
  unfold DeleteJob. rewrite bind_unfold, clientDelete_eq.
  destruct (Delete k (Jobs namespace) (trace w) name) as [e|]; [|reflexivity].
  destruct (IsNotFound e); reflexivity.
Qed.

Lemma DeletePod_eq (k : Interface) (name namespace : string) (w : World) :
  DeletePod k name namespace w =
  Val (match Delete k (Pods namespace) (trace w) name with
       | Some e => if IsNotFound e then None else Some e
       | None => None
       end)
      (logged (EvDelete (Pods namespace) name (Delete k (Pods namespace) (trace w) name)) w).
Proof.
  unfold DeletePod. rewrite bind_unfold, clientDelete_eq.
  destruct (Delete k (Pods namespace) (trace w) name) as [e|]; [|reflexivity].
  destruct (IsNotFound e); reflexivity.
Qed.

Lemma DeletePVC_eq (k : Interface) (name namespace : string) (w : World) :
  DeletePVC k name namespace w =
  Val (Delete k (PersistentVolumeClaims namespace) (trace w) name)
      (logged (EvDelete (PersistentVolumeClaims namespace) name
                 (Delete k (PersistentVolumeClaims namespace) (trace w) name)) w).
Proof. reflexivity. Qed.

(** [DeleteJob] and [DeletePod] turn NotFound into success and surface every
    other failure unchanged. *)
Lemma delete_job_pod_idempotent (op : DeleteOp) (k : Interface) (name namespace : string)
    (w : World) (e : error) :
  op <> OpDeletePVC ->
  Delete k (deleteClient op namespace) (trace w) name = Some e ->
  exists w',
    runDelete op k name namespace w = Val (if IsNotFound e then None else Some e) w'.
Proof.
  intros Hop H. destruct op; [| |congruence]; cbn [runDelete deleteClient] in *.
  - rewrite DeleteJob_eq, H. eauto.
  - rewrite DeletePod_eq, H. eauto.
Qed.

(** C3, at the failing input: deleting a claim that does not exist.  The
    backend answers NotFound; [DeleteJob] and [DeletePod] report success for
    the same answer, [DeletePVC] hands the NotFound error to the caller. *)
Theorem C3_DeletePVC_surfaces_NotFound :
  Delete (clientset []) (PersistentVolumeClaims "default") [] "data" = Some notFoundErr /\
  IsNotFound notFoundErr = true /\
  DeletePVC (clientset []) "data" "default" emptyWorld =
    Val (Some notFoundErr)
        (logged (EvDelete (PersistentVolumeClaims "default") "data" (Some notFoundErr)) emptyWorld) /\
  DeleteJob (clientset []) "data" "default" emptyWorld =
    Val None (logged (EvDelete (Jobs "default") "data" (Some notFoundErr)) emptyWorld) /\
  DeletePod (clientset []) "data" "default" emptyWorld =
    Val None (logged (EvDelete (Pods "default") "data" (Some notFoundErr)) emptyWorld).
Proof. repeat split; reflexivity. Qed.

(** ** Create *)

Lemma runCreate_eq (op : CreateOp) (k : Interface) (l : loc) (given : Object) (w : World) :
  heap w !! l = Some given ->
  runCreate op k (Some l) w =
  let r := createClient op (Namespace given) in
  let answer := Create k r (trace w) given in
  let w1 := allocated (fst answer) (logged (EvCreate r given answer) w) in
  match snd answer with
  | Some e =>
      if IsAlreadyExists e
      then refetched op k (fst answer) w1
      else Val (nil_ptr, Some (Wrapf e (createMsg op))) w1
  | None => refetched op k (fst answer) w1
  end.
Proof.
  intros Hl.
  destruct op; cbn [runCreate createClient createMsg]; unfold CreateJob, CreatePVC;
    rewrite bind_unfold, (load_eq _ _ _ Hl), bind_unfold, (clientCreate_eq _ _ _ _ _ Hl);
    cbv zeta;
    match goal with
    | |- context [Create k ?r (trace w) given] =>
        destruct (Create k r (trace w) given) as [[o|] err]
    end;
    cbn [fst snd fresh refetched];
    (destruct err as [e|]; [destruct (IsAlreadyExists e); cbn [negb]|]);
    try reflexivity;
    rewrite bind_unfold, (load_eq _ o) by apply lookup_fresh;
    rewrite bind_unfold, clientGet_eq; cbv zeta; cbn [createClient];
    match goal with |- context [Get k ?r ?h ?n] => destruct (Get k r h n) as [[g|] [e'|]] end;
    reflexivity.
Qed.

Lemma refetched_trace (op : CreateOp) (k : Interface) (o : Object) (w1 : World) :
  exists answer,
    trace (world_of (refetched op k (Some o) w1)) =
      trace w1 ++ [EvGet (createClient op (Namespace o)) (Name o) answer].
Proof.
  exists (Get k (createClient op (Namespace o)) (trace w1) (Name o)).
  unfold refetched. cbv zeta.
  destruct (snd (Get k (createClient op (Namespace o)) (trace w1) (Name o))); reflexivity.
Qed.

Lemma refetched_error (op : CreateOp) (k : Interface) (created : option Object) (w1 : World)
    (q : option nat) (e : error) (w' : World) :
  refetched op k created w1 = Val (q, Some e) w' ->
  exists r name res, trace w' = trace w1 ++ [EvGet r name (res, Some e)].
Proof.
  destruct created as [o|]; [|discriminate]. unfold refetched. cbv zeta.
  destruct (Get k (createClient op (Namespace o)) (trace w1) (Name o)) as [g [e1|]];
    cbn [fst snd]; [|discriminate].
  intros H. injection H as <- <- <-. eauto.
Qed.

(** When the backend answers a create with AlreadyExists, the re-fetch is
    addressed by the name and the namespace of the object that the failed
    [Create] returned, not by those of the caller's entity. *)
Lemma create_refetch_address (op : CreateOp) (k : Interface) (l : loc) (given o : Object)
    (e : error) (w : World) :
  heap w !! l = Some given ->
  Create k (createClient op (Namespace given)) (trace w) given = (Some o, Some e) ->
  IsAlreadyExists e = true ->
  exists answer,
    trace (world_of (runCreate op k (Some l) w)) =
      trace w ++ [EvCreate (createClient op (Namespace given)) given (Some o, Some e);
                  EvGet (createClient op (Namespace o)) (Name o) answer].
Proof.
  intros Hl HC HE. rewrite (runCreate_eq _ _ _ _ _ Hl). cbv zeta. rewrite HC. cbn [fst snd].
  rewrite HE.
  destruct (refetched_trace op k o
              (allocated (Some o)
                 (logged (EvCreate (createClient op (Namespace given)) given (Some o, Some e)) w)))
    as [answer Hans].
  exists answer. rewrite Hans. simpl. rewrite <- app_assoc. reflexivity.
Qed.

(** C4, at the failing input: the Job (the claim) "a" exists in namespace
    "default" and the caller creates it again.  The typed client answers
    AlreadyExists together with the empty object it decodes into; the
    parameter is overwritten with that object, so the re-fetch asks for the
    name "" in the namespace "" and the operation fails, although the entity
    can be fetched under the caller's name.  With a client that returns [nil]
    on failure the re-fetch dereferences [nil]. *)
Theorem C4_create_existing_refetches_wrong_name :
  let existing := sample "a" "default" in
  let given := stale "a" "default" in
  let k := clientset [(Jobs "default", existing); (PersistentVolumeClaims "default", existing)] in
  let k' := fakeClientset [(Jobs "default", existing)] in
  Create k (Jobs "default") [] given = (Some emptyObject, Some alreadyExistsErr) /\
  IsAlreadyExists alreadyExistsErr = true /\
  GetJob k "a" "default" (holding given) =
    Val (Some 1, None)
        (allocated (Some existing)
           (logged (EvGet (Jobs "default") "a" (Some existing, None)) (holding given))) /\
  CreateJob k (Some 0) (holding given) =
    Val (nil_ptr, Some emptyNameErr)
        {| trace := [EvCreate (Jobs "default") given (Some emptyObject, Some alreadyExistsErr);
                     EvGet (Jobs "") "" (Some emptyObject, Some emptyNameErr)];
           heap := [given; emptyObject; emptyObject] |} /\
  CreatePVC k (Some 0) (holding given) =
    Val (nil_ptr, Some emptyNameErr)
        {| trace := [EvCreate (PersistentVolumeClaims "default") given
                       (Some emptyObject, Some alreadyExistsErr);
                     EvGet (PersistentVolumeClaims "") "" (Some emptyObject, Some emptyNameErr)];
           heap := [given; emptyObject; emptyObject] |} /\
  CreateJob k' (Some 0) (holding given) =
    Crash {| trace := [EvCreate (Jobs "default") given (None, Some alreadyExistsErr)];
             heap := [given] |}.
Proof. repeat split; reflexivity. Qed.

(** ** List *)

Lemma runList_eq (op : ListOp) (k : Interface) (w : World) :
  runList op k w =
  let answer := List k (listClient op) (trace w) in
  let w1 := logged (EvList (listClient op) answer) w in
  match answer with
  | (_, Some e) => Val ([], Some e) w1
  | (Some items, None) => Val (items, None) w1
  | (None, None) => Crash w1
  end.
Proof.
  destruct op; cbn [runList listClient]; unfold ListPods, ListPVCs, ListNamespaces;
    rewrite bind_unfold, clientList_eq; cbv zeta;
    match goal with |- context [List k ?r (trace w)] =>
      destruct (List k r (trace w)) as [[items|] [e|]]; reflexivity end.
Qed.

(** C6: when the backend's list call succeeds with no item, each of
    [ListPods], [ListPVCs] and [ListNamespaces] returns the empty sequence and
    no error; whatever the list call returns without an error is handed on;
    and the operation returns an error only when the list call itself
    failed, with that very error. *)
Theorem C6_list_empty_is_success (op : ListOp) (k : Interface) (w : World) :
  (List k (listClient op) (trace w) = (Some [], None) ->
   exists w', runList op k w = Val ([], None) w') /\
  (forall items,
     List k (listClient op) (trace w) = (Some items, None) ->
     exists w', runList op k w = Val (items, None) w') /\
  (forall items e w',
     runList op k w = Val (items, Some e) w' ->
     snd (List k (listClient op) (trace w)) = Some e).
Proof.
  rewrite runList_eq. cbv zeta.
  destruct (List k (listClient op) (trace w)) as [[items|] [e|]]; repeat split;
    intros; simplify_eq; eauto.
Qed.

Lemma C6_list_empty_is_success_witness :
  (exists w', runList (OpListPods "default") (clientset []) emptyWorld = Val ([], None) w') /\
  (exists w', runList OpListNamespaces (clientset [(Namespaces, sample "default" "")]) emptyWorld
              = Val ([sample "default" ""], None) w') /\
  snd (List (broken forbiddenErr) (listClient (OpListPVCs "default")) (trace emptyWorld))
    = Some forbiddenErr.
Proof.
  split; [|split].
  - apply (proj1 (C6_list_empty_is_success (OpListPods "default") (clientset []) emptyWorld)).
    reflexivity.
  - apply (proj1 (proj2 (C6_list_empty_is_success OpListNamespaces
                           (clientset [(Namespaces, sample "default" "")]) emptyWorld))).
    reflexivity.
  - eapply (proj2 (proj2 (C6_list_empty_is_success (OpListPVCs "default")
                            (broken forbiddenErr) emptyWorld))).
    reflexivity.
Defined.

(** ** One iteration of the retry loop *)

Lemma retryLoop_step (via : Object -> resource) (k : Interface) (f : Object -> Object)
    (fuel : nat) (l : loc) (cur : Object) (w : World) :
  heap w !! l = Some cur ->
  retryLoop via (S fuel) k (Some l) f w =
  let answer := Update k (via cur) (trace w) cur in
  let w1 := allocated (fst answer) (logged (EvUpdate (via cur) cur answer) w) in
  match snd answer with
  | None => Val (fresh (fst answer) w, None) w1
  | Some c =>
      if IsConflict c then
        let w2 := logged (EvDebugf conflictMsg) w1 in
        let answer' := Get k (via cur) (trace w2) (Name cur) in
        let w3 := allocated (fst answer') (logged (EvGet (via cur) (Name cur) answer') w2) in
        match snd answer' with
        | Some e => Val (nil_ptr, Some e) w3
        | None =>
            match fst answer' with
            | Some e1 =>
                retryLoop via fuel k (Some (length (heap w2))) f
                  (mutated (length (heap w2)) e1 (f e1) w3)
            | None => Crash w3
            end
        end
      else Val (nil_ptr, Some c) w1
  end.
Proof.
  intros Hl. cbn [retryLoop].
  rewrite bind_unfold, (load_eq _ _ _ Hl), bind_unfold, (clientUpdate_eq _ _ _ _ _ Hl).
  cbv zeta.
  destruct (Update k (via cur) (trace w) cur) as [u [c|]]; cbn [fst snd]; [|reflexivity].
  destruct (IsConflict c); cbn [negb]; [|reflexivity].
  rewrite bind_unfold, Debugf_eq.
  set (w2 := logged (EvDebugf conflictMsg) _).
  assert (Hl2 : heap w2 !! l = Some cur).
  { subst w2. simpl. apply lookup_app_l_Some. exact Hl. }
  clearbody w2.
  rewrite bind_unfold, (load_eq _ _ _ Hl2), bind_unfold, clientGet_eq.
  destruct (Get k (via cur) (trace w2) (Name cur)) as [g [e|]]; cbn [fst snd]; [reflexivity|].
  destruct g as [e1|]; cbn [fresh]; [|reflexivity].
  rewrite bind_unfold, (call_eq f (length (heap w2)) e1); [reflexivity|].
  apply lookup_fresh.
Qed.

Lemma updateWithRetry_step (via : Object -> resource) (k : Interface) (f : Object -> Object)
    (fuel : nat) (l : loc) (given : Object) (w : World) :
  heap w !! l = Some given ->
  updateWithRetry via fuel k (Some l) f w =
  let answer := Get k (via given) (trace w) (Name given) in
  let w1 := allocated (fst answer) (logged (EvGet (via given) (Name given) answer) w) in
  match snd answer with
  | Some e => Val (nil_ptr, Some (Wrapf e fetchMsg)) w1
  | None =>
      match fst answer with
      | Some e1 =>
          retryLoop via fuel k (Some (length (heap w))) f
            (mutated (length (heap w)) e1 (f e1) w1)
      | None => Crash w1
      end
  end.
Proof.
  intros Hl. unfold updateWithRetry.
  rewrite bind_unfold, (load_eq _ _ _ Hl), bind_unfold, clientGet_eq. cbv zeta.
  destruct (Get k (via given) (trace w) (Name given)) as [g [e|]]; cbn [fst snd]; [reflexivity|].
  destruct g as [e1|]; cbn [fresh]; [|reflexivity].
  rewrite bind_unfold, (call_eq f (length (heap w)) e1); [reflexivity|].
  apply lookup_fresh.
Qed.

(** The world in which the next iteration starts. *)
Lemma mutated_fresh (ev : event) (e1 after : Object) (w : World) :
  let w' := mutated (length (heap w)) e1 after (allocated (Some e1) (logged ev w)) in
  trace w' = trace w ++ [ev; EvUpdateFunc (length (heap w)) e1 after] /\
  heap w' = heap w ++ [after] /\
  heap w' !! length (heap w) = Some after.
Proof.
  cbv zeta. split; [|split].
  - simpl. rewrite <- app_assoc. reflexivity.
  - apply insert_fresh.
  - simpl. rewrite insert_fresh. apply lookup_fresh.
Qed.

Lemma count_app (sel : event -> bool) (a b : list event) :
  count sel (a ++ b) = count sel a + count sel b.
Proof. induction a as [|ev a IH]; simpl; [reflexivity|]. rewrite IH. lia. Qed.

Lemma Converged_counts (op : UpdateOp) (f : Object -> Object) (a : Object) (n : nat)
    (u : Object) (evs : list event) :
  Converged op f a n u evs ->
  count isGet evs = n + 1 /\ count isUpdateFunc evs = n + 1 /\ count isUpdate evs = n + 1.
Proof.
  induction 1 as [|a e l res c n u evs HC H IH]; simpl; [auto|].
  destruct IH as (-> & -> & ->). auto.
Qed.

(** ** Convergence against a backend that conflicts [N] times *)

Section Convergence.
Variable op : UpdateOp.
Variable k : Interface.
Variable f : Object -> Object.
Variable t0 : list event.
Variable N : nat.

Hypothesis fetches_succeed :
  forall evs r name, exists e, Get k r (t0 ++ evs) name = (Some e, None).
Hypothesis first_conflict :
  forall evs r sent,
    count isUpdate evs < N ->
    exists res c, Update k r (t0 ++ evs) sent = (res, Some c) /\ IsConflict c = true.
Hypothesis then_accepts :
  forall evs r sent,
    count isUpdate evs = N -> exists u, Update k r (t0 ++ evs) sent = (Some u, None).

Lemma retryLoop_converges :
  forall n fuel w l cur pre,
    heap w !! l = Some cur ->
    trace w = t0 ++ pre ->
    count isUpdate pre + n = N ->
    n < fuel ->
    exists l' u w' evs,
      retryLoop (clientOf op) fuel k (Some l) f w = Val (Some l', None) w' /\
      heap w' !! l' = Some u /\
      trace w' = trace w ++ evs /\
      forall a e lf,
        cur = f e ->
        Converged op f a n u
          (EvGet (clientOf op a) (Name a) (Some e, None) :: EvUpdateFunc lf e (f e) :: evs).
Proof.
  induction n as [|n IH]; intros fuel w l cur pre Hl Ht Hn Hfuel;
    (destruct fuel as [|fuel]; [lia|]); rewrite (retryLoop_step _ _ _ _ _ _ _ Hl); cbv zeta.
  - destruct (then_accepts pre (clientOf op cur) cur) as [u Hu]; [lia|].
    rewrite Ht, Hu. cbn [fst snd fresh].
    eexists _, u, _, [EvUpdate (clientOf op cur) cur (Some u, None)].
    split; [reflexivity|]. split; [apply lookup_fresh|].
    split; [simpl; rewrite Ht; reflexivity|].
    intros a e lf ->. constructor.
  - destruct (first_conflict pre (clientOf op cur) cur) as (res & c & Hu & Hc); [lia|].
    rewrite Ht, Hu. cbn [fst snd]. rewrite Hc.
    set (U := EvUpdate (clientOf op cur) cur (res, Some c)).
    set (w2 := logged (EvDebugf conflictMsg) (allocated res (logged U w))).
    assert (Ht2 : trace w2 = t0 ++ (pre ++ [U; EvDebugf conflictMsg])).
    { subst w2. simpl. rewrite Ht, <- !app_assoc. reflexivity. }
    destruct (fetches_succeed (pre ++ [U; EvDebugf conflictMsg]) (clientOf op cur) (Name cur))
      as [e1 He1].
    rewrite Ht2, He1. cbn [fst snd].
    set (G := EvGet (clientOf op cur) (Name cur) (Some e1, None)).
    destruct (mutated_fresh G e1 (f e1) w2) as (Ht4 & Hh4 & Hl4).
    cbv zeta in Ht4, Hh4, Hl4.
    set (w4 := mutated (length (heap w2)) e1 (f e1) (allocated (Some e1) (logged G w2))) in *.
    clearbody w4.
    destruct (IH fuel w4 (length (heap w2)) (f e1)
                (pre ++ [U; EvDebugf conflictMsg; G; EvUpdateFunc (length (heap w2)) e1 (f e1)])
                Hl4)
      as (l' & u & w' & evs & Hrun & Hu' & Htr & Hconv).
    { rewrite Ht4, Ht2, <- !app_assoc. reflexivity. }
    { rewrite count_app. simpl. lia. }
    { lia. }
    exists l', u, w',
      (U :: EvDebugf conflictMsg :: G :: EvUpdateFunc (length (heap w2)) e1 (f e1) :: evs).
    split; [exact Hrun|]. split; [exact Hu'|].
    split.
    { rewrite Htr, Ht4, Ht2, <- !app_assoc. reflexivity. }
    intros a e lf ->. subst U G.
    apply converged_conflict; [exact Hc|].
    apply Hconv. reflexivity.
Qed.

Lemma updateWithRetry_converges (fuel : nat) (w : World) (l : loc) (given : Object) :
  trace w = t0 ->
  heap w !! l = Some given ->
  N < fuel ->
  exists l' u w' evs,
    updateWithRetry (clientOf op) fuel k (Some l) f w = Val (Some l', None) w' /\
    heap w' !! l' = Some u /\
    trace w' = trace w ++ evs /\
    Converged op f given N u evs.
Proof.
  intros Ht Hl Hfuel. rewrite (updateWithRetry_step _ _ _ _ _ _ _ Hl). cbv zeta.
  destruct (fetches_succeed [] (clientOf op given) (Name given)) as [e1 He1].
  rewrite app_nil_r in He1. rewrite Ht, He1. cbn [fst snd].
  set (G := EvGet (clientOf op given) (Name given) (Some e1, None)).
  destruct (mutated_fresh G e1 (f e1) w) as (Ht4 & Hh4 & Hl4).
  cbv zeta in Ht4, Hh4, Hl4.
  set (w4 := mutated (length (heap w)) e1 (f e1) (allocated (Some e1) (logged G w))) in *.
  clearbody w4.
  destruct (retryLoop_converges N fuel w4 (length (heap w)) (f e1)
              [G; EvUpdateFunc (length (heap w)) e1 (f e1)] Hl4)
    as (l' & u & w' & evs & Hrun & Hu' & Htr & Hconv).
  { rewrite Ht4, Ht. reflexivity. }
  { simpl. lia. }
  { exact Hfuel. }
  exists l', u, w', (G :: EvUpdateFunc (length (heap w)) e1 (f e1) :: evs).
  split; [exact Hrun|]. split; [exact Hu'|].
  split; [rewrite Htr, Ht4, Ht, <- app_assoc; reflexivity|].
  apply Hconv. reflexivity.
Qed.
End Convergence.

(** C1: against a backend whose fetches succeed and which answers the first
    [N] update attempts with a Conflict and accepts the next one, each of
    [UpdatePV], [UpdatePVC] and [UpdateNamespace] returns without error after
    exactly [N + 1] fetch / mutate / submit cycles.  In every cycle
    [updateFunc] is called once, on the object just fetched, and its result
    is what is submitted ([Converged]); there are [N + 1] fetches, [N + 1]
    calls of [updateFunc] and [N + 1] update attempts; the pointer returned
    refers to the object that the accepted update returned. *)
Theorem C1_update_converges (op : UpdateOp) (k : Interface) (N fuel : nat) (p : ptr)
    (given : Object) (f : Object -> Object) (w : World) :
  pointee p w = Some given ->
  (forall evs r name, exists e, Get k r (trace w ++ evs) name = (Some e, None)) ->
  (forall evs r sent,
     count isUpdate evs < N ->
     exists res c, Update k r (trace w ++ evs) sent = (res, Some c) /\ IsConflict c = true) ->
  (forall evs r sent,
     count isUpdate evs = N -> exists u, Update k r (trace w ++ evs) sent = (Some u, None)) ->
  N < fuel ->
  exists l u w' evs,
    runUpdate op fuel k p f w = Val (Some l, None) w' /\
    heap w' !! l = Some u /\
    trace w' = trace w ++ evs /\
    Converged op f given N u evs /\
    count isGet evs = N + 1 /\
    count isUpdateFunc evs = N + 1 /\
    count isUpdate evs = N + 1.
Proof.
  intros Hp HG HC HA Hfuel. destruct p as [l|]; [|discriminate]. simpl in Hp.
  rewrite runUpdate_generic.
  destruct (updateWithRetry_converges op k f (trace w) N HG HC HA fuel w l given eq_refl Hp Hfuel)
    as (l' & u & w' & evs & Hrun & Hu & Htr & Hconv).
  exists l', u, w', evs. repeat split; try assumption; eapply Converged_counts; eauto.
Qed.

Lemma C1_update_converges_witness :
  exists l u w' evs,
    runUpdate OpUpdatePV 2 (flaky 1) (Some 0) (setLabel "a" "b") (holding (stale "x" ""))
      = Val (Some l, None) w' /\
    heap w' !! l = Some u /\
    trace w' = trace (holding (stale "x" "")) ++ evs /\
    Converged OpUpdatePV (setLabel "a" "b") (stale "x" "") 1 u evs /\
    count isGet evs = 1 + 1 /\
    count isUpdateFunc evs = 1 + 1 /\
    count isUpdate evs = 1 + 1.
Proof.
  apply (C1_update_converges OpUpdatePV (flaky 1) 1 2 (Some 0) (stale "x" "")).
  - reflexivity.
  - intros evs r name. eexists. reflexivity.
  - intros evs r sent H. exists (Some emptyObject), conflictErr. simpl.
    destruct (Nat.ltb_spec (count isUpdate evs) 1); [split; reflexivity | lia].
  - intros evs r sent H. eexists. simpl.
    destruct (Nat.ltb_spec (count isUpdate evs) 1); [lia | reflexivity].
  - lia.
Defined.

(** ** Termination of the retry loop *)

Section Termination.
Variable op : UpdateOp.
Variable k : Interface.
Variable f : Object -> Object.
Variable t0 : list event.
Variable N : nat.

Hypothesis no_conflict_at_N :
  forall evs r sent c,
    count isUpdate evs = N ->
    snd (Update k r (t0 ++ evs) sent) = Some c -> IsConflict c = false.

Lemma retryLoop_terminates :
  forall n fuel w l cur pre,
    heap w !! l = Some cur ->
    trace w = t0 ++ pre ->
    count isUpdate pre + n = N ->
    n < fuel ->
    terminated (retryLoop (clientOf op) fuel k (Some l) f w) /\
    retryLoop (clientOf op) fuel k (Some l) f w =
      retryLoop (clientOf op) (S n) k (Some l) f w.
Proof.
  induction n as [|n IH]; intros fuel w l cur pre Hl Ht Hn Hfuel;
    (destruct fuel as [|fuel]; [lia|]); rewrite !(retryLoop_step _ _ _ _ _ _ _ Hl); cbv zeta.
  - destruct (Update k (clientOf op cur) (trace w) cur) as [u [c|]] eqn:EU; cbn [fst snd].
    2:{ split; [exact I | reflexivity]. }
    rewrite (no_conflict_at_N pre (clientOf op cur) cur c).
    + split; [exact I | reflexivity].
    + lia.
    + rewrite <- Ht, EU. reflexivity.
  - destruct (Update k (clientOf op cur) (trace w) cur) as [u [c|]] eqn:EU; cbn [fst snd].
    2:{ split; [exact I | reflexivity]. }
    destruct (IsConflict c); [|split; [exact I | reflexivity]].
    set (U := EvUpdate (clientOf op cur) cur (u, Some c)).
    set (w2 := logged (EvDebugf conflictMsg) (allocated u (logged U w))).
    assert (Ht2 : trace w2 = t0 ++ (pre ++ [U; EvDebugf conflictMsg])).
    { subst w2. simpl. rewrite Ht, <- !app_assoc. reflexivity. }
    destruct (Get k (clientOf op cur) (trace w2) (Name cur)) as [g [e|]]; cbn [fst snd].
    { split; [exact I | reflexivity]. }
    destruct g as [e1|]; [|split; [exact I | reflexivity]].
    set (G := EvGet (clientOf op cur) (Name cur) (Some e1, None)).
    destruct (mutated_fresh G e1 (f e1) w2) as (Ht4 & Hh4 & Hl4).
    cbv zeta in Ht4, Hh4, Hl4.
    set (w4 := mutated (length (heap w2)) e1 (f e1) (allocated (Some e1) (logged G w2))) in *.
    clearbody w4.
    apply (IH fuel w4 (length (heap w2)) (f e1)
             (pre ++ [U; EvDebugf conflictMsg; G; EvUpdateFunc (length (heap w2)) e1 (f e1)])
             Hl4).
    + rewrite Ht4, Ht2, <- !app_assoc. reflexivity.
    + rewrite count_app. simpl. lia.
    + lia.
Qed.

Lemma updateWithRetry_terminates (fuel : nat) (w : World) (p : ptr) :
  trace w = t0 ->
  N < fuel ->
  terminated (updateWithRetry (clientOf op) fuel k p f w) /\
  updateWithRetry (clientOf op) fuel k p f w = updateWithRetry (clientOf op) (S N) k p f w.
Proof.
  intros Ht Hfuel.
  destruct (load_inv p w) as [(l & given & -> & Hl & Hw)|[Hn Hw]].
  2:{ unfold updateWithRetry. rewrite !bind_unfold, Hw. split; [exact I | reflexivity]. }
  rewrite !(updateWithRetry_step _ _ _ _ _ _ _ Hl). cbv zeta.
  destruct (Get k (clientOf op given) (trace w) (Name given)) as [g [e|]]; cbn [fst snd].
  { split; [exact I | reflexivity]. }
  destruct g as [e1|]; [|split; [exact I | reflexivity]].
  set (G := EvGet (clientOf op given) (Name given) (Some e1, None)).
  destruct (mutated_fresh G e1 (f e1) w) as (Ht4 & Hh4 & Hl4).
  cbv zeta in Ht4, Hh4, Hl4.
  set (w4 := mutated (length (heap w)) e1 (f e1) (allocated (Some e1) (logged G w))) in *.
  clearbody w4.
  apply (retryLoop_terminates N fuel w4 (length (heap w)) (f e1)
           [G; EvUpdateFunc (length (heap w)) e1 (f e1)] Hl4).
  - rewrite Ht4, Ht. reflexivity.
  - simpl. lia.
  - exact Hfuel.
Qed.
End Termination.

(** ** A perpetually contended entity *)

Section Contention.
Variable op : UpdateOp.
Variable k : Interface.
Variable f : Object -> Object.
Variable t0 : list event.

Hypothesis fetches_succeed :
  forall evs r name, exists e, Get k r (t0 ++ evs) name = (Some e, None).
Hypothesis always_conflict :
  forall evs r sent,
    exists res c, Update k r (t0 ++ evs) sent = (res, Some c) /\ IsConflict c = true.

Lemma retryLoop_spins :
  forall fuel w l cur pre,
    heap w !! l = Some cur ->
    trace w = t0 ++ pre ->
    exists w' evs,
      retryLoop (clientOf op) fuel k (Some l) f w = Timeout w' /\
      trace w' = trace w ++ evs /\
      count isUpdate evs = fuel /\
      count isGet evs = fuel /\
      count isUpdateFunc evs = fuel.
Proof.
  induction fuel as [|fuel IH]; intros w l cur pre Hl Ht.
  { exists w, []. rewrite app_nil_r. repeat split; reflexivity. }
  rewrite (retryLoop_step _ _ _ _ _ _ _ Hl). cbv zeta.
  destruct (always_conflict pre (clientOf op cur) cur) as (res & c & Hu & Hc).
  rewrite Ht, Hu. cbn [fst snd]. rewrite Hc.
  set (U := EvUpdate (clientOf op cur) cur (res, Some c)).
  set (w2 := logged (EvDebugf conflictMsg) (allocated res (logged U w))).
  assert (Ht2 : trace w2 = t0 ++ (pre ++ [U; EvDebugf conflictMsg])).
  { subst w2. simpl. rewrite Ht, <- !app_assoc. reflexivity. }
  destruct (fetches_succeed (pre ++ [U; EvDebugf conflictMsg]) (clientOf op cur) (Name cur))
    as [e1 He1].
  rewrite Ht2, He1. cbn [fst snd].
  set (G := EvGet (clientOf op cur) (Name cur) (Some e1, None)).
  destruct (mutated_fresh G e1 (f e1) w2) as (Ht4 & Hh4 & Hl4).
  cbv zeta in Ht4, Hh4, Hl4.
  set (w4 := mutated (length (heap w2)) e1 (f e1) (allocated (Some e1) (logged G w2))) in *.
  clearbody w4.
  destruct (IH w4 (length (heap w2)) (f e1)
              (pre ++ [U; EvDebugf conflictMsg; G; EvUpdateFunc (length (heap w2)) e1 (f e1)])
              Hl4)
    as (w' & evs & Hrun & Htr & HcU & HcG & HcF).
  { rewrite Ht4, Ht2, <- !app_assoc. reflexivity. }
  exists w', (U :: EvDebugf conflictMsg :: G :: EvUpdateFunc (length (heap w2)) e1 (f e1) :: evs).
  split; [exact Hrun|].
  split; [rewrite Htr, Ht4, Ht2, <- !app_assoc; reflexivity|].
  simpl. rewrite HcU, HcG, HcF. auto.
Qed.

Lemma updateWithRetry_spins (fuel : nat) (w : World) (l : loc) (given : Object) :
  trace w = t0 ->
  heap w !! l = Some given ->
  exists w' evs,
    updateWithRetry (clientOf op) fuel k (Some l) f w = Timeout w' /\
    trace w' = trace w ++ evs /\
    count isUpdate evs = fuel /\
    count isGet evs = fuel + 1 /\
    count isUpdateFunc evs = fuel + 1.
Proof.
  intros Ht Hl. rewrite (updateWithRetry_step _ _ _ _ _ _ _ Hl). cbv zeta.
  destruct (fetches_succeed [] (clientOf op given) (Name given)) as [e1 He1].
  rewrite app_nil_r in He1. rewrite Ht, He1. cbn [fst snd].
  set (G := EvGet (clientOf op given) (Name given) (Some e1, None)).
  destruct (mutated_fresh G e1 (f e1) w) as (Ht4 & Hh4 & Hl4).
  cbv zeta in Ht4, Hh4, Hl4.
  set (w4 := mutated (length (heap w)) e1 (f e1) (allocated (Some e1) (logged G w))) in *.
  clearbody w4.
  destruct (retryLoop_spins fuel w4 (length (heap w)) (f e1)
              [G; EvUpdateFunc (length (heap w)) e1 (f e1)] Hl4)
    as (w' & evs & Hrun & Htr & HcU & HcG & HcF).
  { rewrite Ht4, Ht. reflexivity. }
  exists w', (G :: EvUpdateFunc (length (heap w)) e1 (f e1) :: evs).
  split; [exact Hrun|].
  split; [rewrite Htr, Ht4, Ht, <- app_assoc; reflexivity|].
  simpl. rewrite HcU, HcG, HcF. repeat split; lia.
Qed.
End Contention.

(** ** Consequences of the grammar of runs *)



Lemma Attempts_exit (op : UpdateOp) (f : Object -> Object) (base : nat) (cur : Object)
    (evs : list event) (v : verdict) :
  Attempts op f base cur evs v ->
  match v with
  | Accepted u => exists pre r sent, evs = pre ++ [EvUpdate r sent (u, None)]
  | Failed e =>
      exists pre ev,
        evs = pre ++ [ev] /\ failure ev = Some e /\
        ((isUpdate ev = true /\ IsConflict e = false) \/ (isGet ev = true /\ pre <> []))
  | Panicked | Spinning => True
  end.
Proof.
  induction 1 as [cur|cur u|cur res e0 HC|cur res c res' e0 HC|cur res c HC
                  |cur res c e1 l evs v HC Hb H IH].
  - exact I.
  - exists [], (clientOf op cur), cur. reflexivity.
  - exists [], (EvUpdate (clientOf op cur) cur (res, Some e0)). auto.
  - exists [EvUpdate (clientOf op cur) cur (res, Some c); EvDebugf conflictMsg],
      (EvGet (clientOf op cur) (Name cur) (res', Some e0)).
    repeat split. right. split; [reflexivity | discriminate].
  - exact I.
  - destruct v as [u|e| |]; try exact I.
    + destruct IH as (pre & r & sent & ->).
      exists (EvUpdate (clientOf op cur) cur (res, Some c) :: EvDebugf conflictMsg ::
              EvGet (clientOf op cur) (Name cur) (Some e1, None) ::
              EvUpdateFunc l e1 (f e1) :: pre), r, sent. reflexivity.
    + destruct IH as (pre & ev & -> & Hf & Hk).
      exists (EvUpdate (clientOf op cur) cur (res, Some c) :: EvDebugf conflictMsg ::
              EvGet (clientOf op cur) (Name cur) (Some e1, None) ::
              EvUpdateFunc l e1 (f e1) :: pre), ev.
      repeat split; auto.
      destruct Hk as [?|[? ?]]; [left; auto | right; split; [auto | discriminate]].
Qed.

(** Where the error returned by an update operation comes from. *)
Lemma Run_exit (op : UpdateOp) (f : Object -> Object) (base : nat) (given : Object)
    (evs : list event) (v : verdict) :
  Run op f base given evs v ->
  match v with
  | Accepted u => exists pre r sent, evs = pre ++ [EvUpdate r sent (u, None)]
  | Failed e =>
      exists pre ev e0,
        evs = pre ++ [ev] /\ failure ev = Some e0 /\
        ((isUpdate ev = true /\ e = e0 /\ IsConflict e = false) \/
         (isGet ev = true /\ pre = [] /\ e = Wrapf e0 fetchMsg) \/
         (isGet ev = true /\ pre <> [] /\ e = e0))
  | Panicked | Spinning => True
  end.
Proof.
  destruct 1 as [given res e0|given|given e1 l evs v Hb H].
  - exists [], (EvGet (clientOf op given) (Name given) (res, Some e0)), e0.
    repeat split. right. left. auto.
  - exact I.
  - pose proof (Attempts_exit _ _ _ _ _ _ H) as HE.
    destruct v as [u|e| |]; try exact I.
    + destruct HE as (pre & r & sent & ->).
      exists (EvGet (clientOf op given) (Name given) (Some e1, None) ::
              EvUpdateFunc l e1 (f e1) :: pre), r, sent. reflexivity.
    + destruct HE as (pre & ev & -> & Hf & Hk).
      exists (EvGet (clientOf op given) (Name given) (Some e1, None) ::
              EvUpdateFunc l e1 (f e1) :: pre), ev, e.
      repeat split; auto.
      destruct Hk as [[? ?]|[? ?]]; [left; auto | right; right; repeat split; auto; discriminate].
Qed.

(** Every update attempt submits the result of [updateFunc] on the object
    returned by the fetch just before it. *)
Lemma Attempts_submitted (op : UpdateOp) (f : Object -> Object) (base : nat) (cur : Object)
    (evs : list event) (v : verdict) :
  Attempts op f base cur evs v ->
  forall pre r sent answer post,
    evs = pre ++ EvUpdate r sent answer :: post ->
    (pre = [] /\ sent = cur /\ r = clientOf op cur) \/
    (exists pre' r' name e l,
       pre = pre' ++ [EvGet r' name (Some e, None); EvUpdateFunc l e (f e)] /\
       sent = f e /\ r = clientOf op (f e) /\ base <= l).
Proof.
  induction 1 as [cur|cur u|cur res e0 HC|cur res c res' e0 HC|cur res c HC
                  |cur res c e1 l evs v HC Hb H IH];
    intros pre r sent answer post Heq.
  - destruct pre; discriminate.
  - destruct pre as [|? [|? ?]]; simplify_eq/=. left. auto.
  - destruct pre as [|? [|? ?]]; simplify_eq/=. left. auto.
  - destruct pre as [|? [|? [|? [|? ?]]]]; simplify_eq/=. left. auto.
  - destruct pre as [|? [|? [|? [|? ?]]]]; simplify_eq/=. left. auto.
  - destruct pre as [|? [|? [|? [|? pre]]]]; simplify_eq/=.
    + left. auto.
    + right. destruct (IH pre r sent answer post eq_refl)
        as [(-> & -> & ->)|(pre' & r' & name & e & l' & -> & -> & -> & Hl')].
      * exists [EvUpdate (clientOf op cur) cur (res, Some c); EvDebugf conflictMsg],
          (clientOf op cur), (Name cur), e1, l. auto.
      * exists (EvUpdate (clientOf op cur) cur (res, Some c) :: EvDebugf conflictMsg ::
                EvGet (clientOf op cur) (Name cur) (Some e1, None) ::
                EvUpdateFunc l e1 (f e1) :: pre'), r', name, e, l'. auto.
Qed.

Lemma Run_submitted (op : UpdateOp) (f : Object -> Object) (base : nat) (given : Object)
    (evs : list event) (v : verdict) :
  Run op f base given evs v ->
  forall pre r sent answer post,
    evs = pre ++ EvUpdate r sent answer :: post ->
    exists pre' r' name e l,
      pre = pre' ++ [EvGet r' name (Some e, None); EvUpdateFunc l e (f e)] /\
      sent = f e /\ r = clientOf op (f e) /\ base <= l.
Proof.
  destruct 1 as [given res e0|given|given e1 l evs v Hb H];
    intros pre r sent answer post Heq.
  - destruct pre as [|? [|? ?]]; simplify_eq/=.
  - destruct pre as [|? [|? ?]]; simplify_eq/=.
  - destruct pre as [|? [|? pre]]; simplify_eq/=.
    destruct (Attempts_submitted _ _ _ _ _ _ H pre r sent answer post eq_refl)
      as [(-> & -> & ->)|(pre' & r' & name & e & l' & -> & -> & -> & Hl')].
    + exists [], (clientOf op given), (Name given), e1, l. auto.
    + exists (EvGet (clientOf op given) (Name given) (Some e1, None) ::
              EvUpdateFunc l e1 (f e1) :: pre'), r', name, e, l'. auto.
Qed.

(** [updateFunc] is only ever applied at locations allocated by the
    operation itself. *)
Lemma Attempts_fresh (op : UpdateOp) (f : Object -> Object) (base : nat) (cur : Object)
    (evs : list event) (v : verdict) :
  Attempts op f base cur evs v ->
  forall l before after, In (EvUpdateFunc l before after) evs -> base <= l.
Proof.
  induction 1 as [cur|cur u|cur res e0 HC|cur res c res' e0 HC|cur res c HC
                  |cur res c e1 l evs v HC Hb H IH];
    intros l' before after Hin; simpl in Hin;
    repeat (destruct Hin as [Hin|Hin]; [try discriminate|]); try contradiction.
  - injection Hin as -> _ _. exact Hb.
  - eapply IH; exact Hin.
Qed.

Lemma Run_fresh (op : UpdateOp) (f : Object -> Object) (base : nat) (given : Object)
    (evs : list event) (v : verdict) :
  Run op f base given evs v ->
  forall l before after, In (EvUpdateFunc l before after) evs -> base <= l.
Proof.
  destruct 1 as [given res e0|given|given e1 l evs v Hb H];
    intros l' before after Hin; simpl in Hin;
    repeat (destruct Hin as [Hin|Hin]; [try discriminate|]); try contradiction.
  - injection Hin as -> _ _. exact Hb.
  - eapply Attempts_fresh; eauto.
Qed.

(** Fetches and update attempts alternate. *)
Lemma Attempts_alternate (op : UpdateOp) (f : Object -> Object) (base : nat) (cur : Object)
    (evs : list event) (v : verdict) :
  Attempts op f base cur evs v ->
  count isGet evs <= count isUpdate evs <= count isGet evs + 1 /\
  count isUpdateFunc evs <= count isGet evs.
Proof.
  induction 1; simpl; lia.
Qed.

Lemma Run_alternate (op : UpdateOp) (f : Object -> Object) (base : nat) (given : Object)
    (evs : list event) (v : verdict) :
  Run op f base given evs v ->
  count isUpdate evs <= count isGet evs <= count isUpdate evs + 1 /\
  count isUpdateFunc evs <= count isGet evs.
Proof.
  destruct 1 as [given res e0|given|given e1 l evs v Hb H]; simpl; try lia.
  pose proof (Attempts_alternate _ _ _ _ _ _ H). lia.
Qed.

(** ** Abort and retry *)

Lemma errorsIs_refl (e : error) : errorsIs e e.
Proof. destruct e; left; reflexivity. Qed.

Lemma failure_conflictOnUpdate (ev : event) (e : error) :
  failure ev = Some e ->
  conflictOnUpdate ev = true <-> (isUpdate ev = true /\ IsConflict e = true).
Proof.
  destruct ev as [| |? [? [?|]]| |? ? [? [?|]]| |]; simpl; try discriminate;
    try (destruct answer as [? [?|]]; simpl; try discriminate);
    intros; simplify_eq; split; intuition discriminate.
Qed.

Lemma trace_crash_no_event (w : World) (pre post : list event) (ev : event) :
  trace w <> trace w ++ pre ++ ev :: post.
Proof.
  intros H. rewrite <- (app_nil_r (trace w)) in H at 1.
  apply app_inv_head in H. destruct pre; discriminate.
Qed.



(** ** Which errors reach the caller *)

Lemma describes_Val_error (q : ptr) (e : error) (w' : World) (v : verdict) :
  describes (Val (q, Some e) w') v -> v = Failed e /\ q = nil_ptr.
Proof.
  destruct v as [u|e'| |]; simpl.
  - intros (p & w1 & H & _). discriminate.
  - intros (w1 & H). injection H as -> -> ->. auto.
  - intros (w1 & H). discriminate.
  - intros (w1 & H). discriminate.
Qed.

Lemma update_error_origin (op : UpdateOp) (fuel : nat) (k : Interface) (p : ptr)
    (f : Object -> Object) (w : World) (q : ptr) (e : error) (w' : World) :
  runUpdate op fuel k p f w = Val (q, Some e) w' ->
  q = nil_ptr /\
  exists pre ev e0,
    trace w' = trace w ++ pre ++ [ev] /\
    failure ev = Some e0 /\
    ((isUpdate ev = true /\ e = e0 /\ IsConflict e = false) \/
     (isGet ev = true /\ pre = [] /\ e = Wrapf e0 fetchMsg) \/
     (isGet ev = true /\ pre <> [] /\ e = e0)).
Proof.
  intros Hrun.
  destruct (pointee p w) as [given|] eqn:Hp.
  2:{ rewrite (runUpdate_nil _ _ _ _ _ _ Hp) in Hrun. discriminate. }
  destruct (runUpdate_run op k f fuel w p given Hp) as (evs & tail & v & Ht & Hh & HR & HD).
  rewrite Hrun in Ht, HD. simpl in Ht.
  destruct (describes_Val_error _ _ _ _ HD) as [-> ->].
  split; [reflexivity|].
  destruct (Run_exit _ _ _ _ _ _ HR) as (pre & ev & e0 & -> & Hf & Hk).
  exists pre, ev, e0. auto.
Qed.

(** C5, as stated, fails: a Conflict-classified error that a fetch of the
    retry loop comes back with is returned to the caller as it is. *)
Lemma C5_conflict_from_refetch_is_surfaced :
  exists w',
    UpdatePV 2 (refetchFails conflictErr) (Some 0) (setLabel "a" "b") (holding (stale "x" ""))
      = Val (nil_ptr, Some conflictErr) w' /\
    IsConflict conflictErr = true /\
    trace w' =
      [EvGet PersistentVolumes "x" (Some (snapshot PersistentVolumes "x" 0), None);
       EvUpdateFunc 1 (snapshot PersistentVolumes "x" 0)
         (setLabel "a" "b" (snapshot PersistentVolumes "x" 0));
       EvUpdate PersistentVolumes (setLabel "a" "b" (snapshot PersistentVolumes "x" 0))
         (Some emptyObject, Some conflictErr);
       EvDebugf conflictMsg;
       EvGet PersistentVolumes "x" (Some emptyObject, Some conflictErr)].
Proof. eexists. repeat split; reflexivity. Qed.

(** C5, amended: when [UpdatePV], [UpdatePVC] or [UpdateNamespace] returns an
    error, the result is [nil] and the error is the one the last backend call
    of the run failed with, wrapped by [errors.Wrapf] when that call is the
    initial fetch and unchanged otherwise; that last call is never an update
    attempt refused with a Conflict.  An error that a fetch failed with is
    returned whatever its classification. *)
Theorem C5_update_conflict_never_surfaced (op : UpdateOp) (fuel : nat) (k : Interface)
    (p : ptr) (f : Object -> Object) (w : World) (q : ptr) (e : error) (w' : World) :
  runUpdate op fuel k p f w = Val (q, Some e) w' ->
  q = nil_ptr /\
  exists pre ev e0,
    trace w' = trace w ++ pre ++ [ev] /\
    failure ev = Some e0 /\
    conflictOnUpdate ev = false /\
    e = match pre with [] => Wrapf e0 fetchMsg | _ => e0 end.
Proof.
  intros Hrun.
  destruct (update_error_origin _ _ _ _ _ _ _ _ _ Hrun) as (Hq & pre & ev & e0 & Ht & Hf & Hk).
  split; [exact Hq|]. exists pre, ev, e0.
  split; [exact Ht|]. split; [exact Hf|].
  pose proof (failure_conflictOnUpdate ev e0 Hf) as Hiff.
  destruct Hk as [(HU & -> & HC)|[(HG & -> & ->)|(HG & Hne & ->)]].
  - split.
    + destruct (conflictOnUpdate ev); [|reflexivity].
      destruct (proj1 Hiff eq_refl) as [_ HC']. congruence.
    + destruct pre; [|reflexivity].
      destruct ev; try discriminate.
      (* the first event of a run is a fetch, never an update attempt *)
      exfalso.
      destruct (pointee p w) as [given|] eqn:Hp.
      2:{ rewrite (runUpdate_nil _ _ _ _ _ _ Hp) in Hrun. discriminate. }
      destruct (runUpdate_run op k f fuel w p given Hp) as (evs & tail & v & Ht' & _ & HR & _).
      rewrite Hrun in Ht'. simpl in Ht'. rewrite Ht in Ht'. apply app_inv_head in Ht'.
      subst evs. inversion HR.
  - split; [|reflexivity].
    destruct (conflictOnUpdate ev); [|reflexivity].
    destruct (proj1 Hiff eq_refl) as [HU _]. destruct ev; discriminate.
  - split.
    + destruct (conflictOnUpdate ev); [|reflexivity].
      destruct (proj1 Hiff eq_refl) as [HU _]. destruct ev; discriminate.
    + destruct pre; [congruence | reflexivity].
Qed.

Lemma C5_update_conflict_never_surfaced_witness :
  @None nat = nil_ptr /\
  exists pre ev e0,
    trace (world_of (UpdatePV 4 (readOnly forbiddenErr) (Some 0) (setLabel "a" "b")
                       (holding (stale "x" ""))))
      = trace (holding (stale "x" "")) ++ pre ++ [ev] /\
    failure ev = Some e0 /\
    conflictOnUpdate ev = false /\
    forbiddenErr = match pre with [] => Wrapf e0 fetchMsg | _ => e0 end.
Proof.
  apply (C5_update_conflict_never_surfaced OpUpdatePV 4 (readOnly forbiddenErr) (Some 0)
           (setLabel "a" "b") (holding (stale "x" "")) None forbiddenErr).
  reflexivity.
Defined.

(** ** The caller's entity only addresses the first fetch *)

Lemma clientOf_alike (op : UpdateOp) (o1 o2 : Object) :
  Namespace o1 = Namespace o2 -> clientOf op o1 = clientOf op o2.
Proof. intros H. destruct op; simpl; congruence. Qed.

Lemma updateWithRetry_addressing (op : UpdateOp) (fuel : nat) (k : Interface)
    (f : Object -> Object) (w : World) (l1 l2 : loc) (o1 o2 : Object) :
  heap w !! l1 = Some o1 ->
  heap w !! l2 = Some o2 ->
  Name o1 = Name o2 ->
  clientOf op o1 = clientOf op o2 ->
  updateWithRetry (clientOf op) fuel k (Some l1) f w =
  updateWithRetry (clientOf op) fuel k (Some l2) f w.
Proof.
  intros H1 H2 Hn Hc.
  rewrite (updateWithRetry_step _ _ _ _ _ _ _ H1), (updateWithRetry_step _ _ _ _ _ _ _ H2).
  rewrite Hn, Hc. reflexivity.
Qed.

(** C7: two calls of an update operation from the same state whose entities
    agree on name and namespace run identically: same result, same
    interactions with the backend, same final heap, however the other fields
    of the entities differ.  And every object submitted to the backend's
    update is the result of [updateFunc] on the object returned by the fetch
    just before, held at a location that fetch allocated. *)
Theorem C7_passed_entity_only_addresses (op : UpdateOp) (fuel : nat) (k : Interface)
    (f : Object -> Object) (w : World) (p1 p2 : ptr) (o1 o2 : Object) :
  pointee p1 w = Some o1 ->
  pointee p2 w = Some o2 ->
  Name o1 = Name o2 ->
  Namespace o1 = Namespace o2 ->
  runUpdate op fuel k p1 f w = runUpdate op fuel k p2 f w /\
  forall pre r sent answer post,
    trace (world_of (runUpdate op fuel k p1 f w)) = trace w ++ pre ++ EvUpdate r sent answer :: post ->
    exists pre' r' name e l,
      pre = pre' ++ [EvGet r' name (Some e, None); EvUpdateFunc l e (f e)] /\
      sent = f e /\
      length (heap w) <= l.
Proof.
  intros H1 H2 Hn Hns. split.
  - destruct p1 as [l1|]; [|discriminate]. destruct p2 as [l2|]; [|discriminate].
    simpl in H1, H2. rewrite !runUpdate_generic.
    apply (updateWithRetry_addressing op fuel k f w l1 l2 o1 o2 H1 H2 Hn).
    apply clientOf_alike. exact Hns.
  - intros pre r sent answer post Htr.
    destruct (runUpdate_run op k f fuel w p1 o1 H1) as (evs & tail & v & Ht & Hh & HR & HD).
    rewrite Ht in Htr. apply app_inv_head in Htr. subst evs.
    destruct (Run_submitted _ _ _ _ _ _ HR pre r sent answer post eq_refl)
      as (pre' & r' & name & e & l & -> & -> & _ & Hl).
    exists pre', r', name, e, l. auto.
Qed.

(** For the cluster-scoped kinds the name alone decides. *)
Lemma cluster_scoped_addressing (op : UpdateOp) (fuel : nat) (k : Interface)
    (f : Object -> Object) (w : World) (p1 p2 : ptr) (o1 o2 : Object) :
  op <> OpUpdatePVC ->
  pointee p1 w = Some o1 ->
  pointee p2 w = Some o2 ->
  Name o1 = Name o2 ->
  runUpdate op fuel k p1 f w = runUpdate op fuel k p2 f w.
Proof.
  intros Hop H1 H2 Hn.
  destruct p1 as [l1|]; [|discriminate]. destruct p2 as [l2|]; [|discriminate].
  simpl in H1, H2. rewrite !runUpdate_generic.
  apply (updateWithRetry_addressing op fuel k f w l1 l2 o1 o2 H1 H2 Hn).
  destruct op; [reflexivity | congruence | reflexivity].
Qed.

Lemma C7_passed_entity_only_addresses_witness :
  runUpdate OpUpdatePVC 3 (flaky 1) (Some 0) (setLabel "a" "b")
    (holding2 (stale "x" "ns") (sample "x" "ns")) =
  runUpdate OpUpdatePVC 3 (flaky 1) (Some 1) (setLabel "a" "b")
    (holding2 (stale "x" "ns") (sample "x" "ns")) /\
  exists pre' r' name e l,
    [EvGet (PersistentVolumeClaims "ns") "x" (Some (snapshot (PersistentVolumeClaims "ns") "x" 0), None);
     EvUpdateFunc 2 (snapshot (PersistentVolumeClaims "ns") "x" 0)
       (setLabel "a" "b" (snapshot (PersistentVolumeClaims "ns") "x" 0))]
    = pre' ++ [EvGet r' name (Some e, None); EvUpdateFunc l e (setLabel "a" "b" e)] /\
    setLabel "a" "b" (snapshot (PersistentVolumeClaims "ns") "x" 0) = setLabel "a" "b" e /\
    length (heap (holding2 (stale "x" "ns") (sample "x" "ns"))) <= l.
Proof.
  destruct (C7_passed_entity_only_addresses OpUpdatePVC 3 (flaky 1) (setLabel "a" "b")
              (holding2 (stale "x" "ns") (sample "x" "ns")) (Some 0) (Some 1)
              (stale "x" "ns") (sample "x" "ns") eq_refl eq_refl eq_refl eq_refl) as [Heq Hsub].
  split; [exact Heq|].
  eapply Hsub. reflexivity.
Defined.

(** ** The caller's entity is never written *)

(** C10: after a call of [UpdatePV], [UpdatePVC] or [UpdateNamespace] the
    object the caller passed in is unchanged, as is every other object that
    existed before the call; [updateFunc] was only applied at locations
    allocated by the fetches of the call itself, never at the caller's. *)
Theorem C10_caller_entity_untouched (op : UpdateOp) (fuel : nat) (k : Interface) (l : loc)
    (given : Object) (f : Object -> Object) (w : World) :
  heap w !! l = Some given ->
  heap (world_of (runUpdate op fuel k (Some l) f w)) !! l = Some given /\
  (exists tail, heap (world_of (runUpdate op fuel k (Some l) f w)) = heap w ++ tail) /\
  exists evs,
    trace (world_of (runUpdate op fuel k (Some l) f w)) = trace w ++ evs /\
    forall l' before after,
      In (EvUpdateFunc l' before after) evs -> length (heap w) <= l' /\ l' <> l.
Proof.
  intros Hl.
  destruct (runUpdate_run op k f fuel w (Some l) given Hl) as (evs & tail & v & Ht & Hh & HR & HD).
  split; [rewrite Hh; apply lookup_app_l_Some; exact Hl|].
  split; [exists tail; exact Hh|].
  exists evs. split; [exact Ht|].
  intros l' before after Hin.
  pose proof (Run_fresh _ _ _ _ _ _ HR l' before after Hin) as Hb.
  pose proof (lookup_lt_Some _ _ _ Hl). split; [exact Hb | lia].
Qed.

Lemma C10_caller_entity_untouched_witness :
  heap (world_of (runUpdate OpUpdateNamespace 3 (flaky 2) (Some 0) (setLabel "a" "b")
                    (holding (stale "x" "")))) !! 0 = Some (stale "x" "") /\
  (exists tail,
     heap (world_of (runUpdate OpUpdateNamespace 3 (flaky 2) (Some 0) (setLabel "a" "b")
                       (holding (stale "x" "")))) = heap (holding (stale "x" "")) ++ tail) /\
  exists evs,
    trace (world_of (runUpdate OpUpdateNamespace 3 (flaky 2) (Some 0) (setLabel "a" "b")
                       (holding (stale "x" "")))) = trace (holding (stale "x" "")) ++ evs /\
    forall l' before after,
      In (EvUpdateFunc l' before after) evs ->
      length (heap (holding (stale "x" ""))) <= l' /\ l' <> 0.
Proof.
  apply (C10_caller_entity_untouched OpUpdateNamespace 3 (flaky 2) 0 (stale "x" "")).
  reflexivity.
Defined.

(** ** Termination and unbounded retry *)

(** C8.  (1) If some update attempt, the one after [N] earlier ones, is not
    answered with a Conflict, the operation terminates: with any fuel above
    [N] the run ends (it returns or panics) and it is the same run as with
    fuel [N + 1].  (2) In every run fetches and update attempts alternate,
    each update attempt being preceded by its own fetch and mutation, and a
    run that returns ends either with an accepted update or with a failed
    call that is not an update refused with a Conflict.  (3) Against a
    backend whose fetches succeed and which refuses every update attempt with
    a Conflict, the loop is still running after any number [fuel] of
    iterations, having made exactly [fuel] update attempts and [fuel]
    re-fetches on top of the initial fetch. *)
Theorem C8_retry_loop_termination (op : UpdateOp) (k : Interface) (p : ptr)
    (f : Object -> Object) (w : World) :
  (forall N fuel,
     (forall evs r sent c,
        count isUpdate evs = N ->
        snd (Update k r (trace w ++ evs) sent) = Some c -> IsConflict c = false) ->
     N < fuel ->
     terminated (runUpdate op fuel k p f w) /\
     runUpdate op fuel k p f w = runUpdate op (S N) k p f w) /\
  (forall fuel,
     exists evs,
       trace (world_of (runUpdate op fuel k p f w)) = trace w ++ evs /\
       count isUpdate evs <= count isGet evs <= count isUpdate evs + 1 /\
       count isUpdateFunc evs <= count isGet evs /\
       forall a w',
         runUpdate op fuel k p f w = Val a w' ->
         exists pre ev,
           evs = pre ++ [ev] /\ conflictOnUpdate ev = false /\
           match snd a with
           | None => exists r sent, ev = EvUpdate r sent (pointee (fst a) w', None)
           | Some e => exists e0, failure ev = Some e0 /\ errorsIs e e0
           end) /\
  (forall given,
     pointee p w = Some given ->
     (forall evs r name, exists e, Get k r (trace w ++ evs) name = (Some e, None)) ->
     (forall evs r sent,
        exists res c, Update k r (trace w ++ evs) sent = (res, Some c) /\ IsConflict c = true) ->
     forall fuel,
       exists w' evs,
         runUpdate op fuel k p f w = Timeout w' /\
         trace w' = trace w ++ evs /\
         count isUpdate evs = fuel /\
         count isGet evs = fuel + 1 /\
         count isUpdateFunc evs = fuel + 1).
Proof.
  split; [|split].
  - intros N fuel HN Hfuel. rewrite !runUpdate_generic.
    apply (updateWithRetry_terminates op k f (trace w) N HN fuel w p eq_refl Hfuel).
  - intros fuel.
    destruct (pointee p w) as [given|] eqn:Hp.
    2:{ exists []. rewrite (runUpdate_nil _ _ _ _ _ _ Hp). simpl. rewrite app_nil_r.
        repeat split; try lia. intros a w' H. discriminate. }
    destruct (runUpdate_run op k f fuel w p given Hp) as (evs & tail & v & Ht & Hh & HR & HD).
    exists evs. split; [exact Ht|].
    destruct (Run_alternate _ _ _ _ _ _ HR) as [Halt Hfun].
    split; [exact Halt|]. split; [exact Hfun|].
    intros [q err] w' Hrun. rewrite Hrun in HD.
    pose proof (Run_exit _ _ _ _ _ _ HR) as HE.
    destruct err as [e|].
    + destruct (describes_Val_error _ _ _ _ HD) as [-> ->].
      destruct HE as (pre & ev & e0 & -> & Hf & Hk).
      pose proof (failure_conflictOnUpdate ev e0 Hf) as Hiff.
      exists pre, ev. split; [reflexivity|]. split.
      * destruct (conflictOnUpdate ev); [|reflexivity].
        destruct (proj1 Hiff eq_refl) as [HU HC].
        destruct Hk as [(_ & -> & HC')|[(HG & _)|(HG & _)]];
          [congruence | destruct ev; discriminate | destruct ev; discriminate].
      * exists e0. split; [exact Hf|]. cbn [snd].
        destruct Hk as [(_ & -> & _)|[(_ & _ & ->)|(_ & _ & ->)]];
          [apply errorsIs_refl | right; apply errorsIs_refl | apply errorsIs_refl].
    + destruct v as [u|e| |]; simpl in HD.
      * destruct HD as (q' & w1 & Heq & Hpt & _). injection Heq as <- <-.
        destruct HE as (pre & r & sent & ->).
        exists pre, (EvUpdate r sent (u, None)). split; [reflexivity|].
        split; [reflexivity|]. cbn [fst snd]. rewrite Hpt. eauto.
      * destruct HD as (w1 & Heq). discriminate.
      * destruct HD as (w1 & Heq). discriminate.
      * destruct HD as (w1 & Heq). discriminate.
  - intros given Hp HG HC fuel.
    destruct p as [l|]; [|discriminate]. simpl in Hp. rewrite runUpdate_generic.
    apply (updateWithRetry_spins op k f (trace w) HG HC fuel w l given eq_refl Hp).
Qed.

Lemma C8_retry_loop_termination_witness :
  (terminated (runUpdate OpUpdatePV 9 (flaky 2) (Some 0) (setLabel "a" "b")
                 (holding (stale "x" ""))) /\
   runUpdate OpUpdatePV 9 (flaky 2) (Some 0) (setLabel "a" "b") (holding (stale "x" "")) =
   runUpdate OpUpdatePV 3 (flaky 2) (Some 0) (setLabel "a" "b") (holding (stale "x" ""))) /\
  (exists w' evs,
     runUpdate OpUpdatePV 5 contended (Some 0) (setLabel "a" "b") (holding (stale "x" ""))
       = Timeout w' /\
     trace w' = trace (holding (stale "x" "")) ++ evs /\
     count isUpdate evs = 5 /\
     count isGet evs = 5 + 1 /\
     count isUpdateFunc evs = 5 + 1).
Proof.
  split.
  - apply (proj1 (C8_retry_loop_termination OpUpdatePV (flaky 2) (Some 0) (setLabel "a" "b")
                    (holding (stale "x" ""))) 2 9); [|lia].
    intros evs r sent c Hn. simpl.
    destruct (Nat.ltb_spec (count isUpdate evs) 2); [lia | discriminate].
  - apply (proj2 (proj2 (C8_retry_loop_termination OpUpdatePV contended (Some 0)
                           (setLabel "a" "b") (holding (stale "x" ""))))
             (stale "x" "")).
    + reflexivity.
    + intros evs r name. eexists. reflexivity.
    + intros evs r sent. exists (Some emptyObject), conflictErr. split; reflexivity.
Defined.

(** ** Context of the errors handed to the caller *)

Lemma runGet_eq (op : GetOp) (k : Interface) (w : World) :
  runGet op k w =
  let answer := Get k (getClient op) (trace w) (getName op) in
  let w1 := allocated (fst answer) (logged (EvGet (getClient op) (getName op) answer) w) in
  match snd answer with
  | Some e => Val (nil_ptr, Some e) w1
  | None => Val (fresh (fst answer) w, None) w1
  end.
Proof.
  destruct op; cbn [runGet getClient getName]; unfold GetJob, GetPV, GetPVC, GetNamespace;
    rewrite bind_unfold, clientGet_eq; cbv zeta;
    match goal with |- context [snd ?a] => destruct (snd a); reflexivity end.
Qed.

(** C9, as stated, fails: a failed [GetJob] hands the backend's error to the
    caller as it is, with no context naming the operation or the kind. *)
Lemma C9_GetJob_error_without_context :
  GetJob (broken forbiddenErr) "a" "default" emptyWorld =
    Val (nil_ptr, Some forbiddenErr)
        (allocated (Some emptyObject)
           (logged (EvGet (Jobs "default") "a" (Some emptyObject, Some forbiddenErr)) emptyWorld)) /\
  ~ hasContext "get" "Job" forbiddenErr.
Proof.
  split; [reflexivity|]. intros (cause & msg & H & _). discriminate.
Qed.

(** The message that wraps the failure of the initial fetch is the same in
    the three update operations and names the claim kind only. *)
Lemma update_fetch_message :
  mentions "update" fetchMsg = true /\
  mentions "PVC" fetchMsg = true /\
  mentions "Namespace" fetchMsg = false.
Proof. repeat split; reflexivity. Qed.

(** C9, amended.  Context is added in two places only: a create failure
    other than AlreadyExists is wrapped with a message naming the operation
    and the kind ("could not create Job", "could not create PVC"), and the
    failure of the initial fetch of an update operation is wrapped with a
    message (for [UpdatePVC] one that names the update of a PVC).  Every other
    failure handed to the caller is the backend's error unchanged: those of
    [GetJob], [GetPV], [GetPVC], [GetNamespace], of the list and delete
    operations, of the re-fetch after a create, of an update attempt and of
    a retry fetch. *)
Theorem C9_surfaced_error_context (k : Interface) (w : World) :
  (forall op e,
     snd (Get k (getClient op) (trace w) (getName op)) = Some e ->
     exists w', runGet op k w = Val (nil_ptr, Some e) w') /\
  (forall op e,
     snd (List k (listClient op) (trace w)) = Some e ->
     exists w', runList op k w = Val ([], Some e) w') /\
  (forall op name namespace e,
     Delete k (deleteClient op namespace) (trace w) name = Some e ->
     op = OpDeletePVC \/ IsNotFound e = false ->
     exists w', runDelete op k name namespace w = Val (Some e) w') /\
  (forall op l given e,
     heap w !! l = Some given ->
     snd (Create k (createClient op (Namespace given)) (trace w) given) = Some e ->
     IsAlreadyExists e = false ->
     (exists w', runCreate op k (Some l) w = Val (nil_ptr, Some (Wrapf e (createMsg op))) w') /\
     hasContext "create" (createKind op) (Wrapf e (createMsg op))) /\
  (forall op l given q e w',
     heap w !! l = Some given ->
     runCreate op k (Some l) w = Val (q, Some e) w' ->
     (exists e0,
        snd (Create k (createClient op (Namespace given)) (trace w) given) = Some e0 /\
        IsAlreadyExists e0 = false /\ e = Wrapf e0 (createMsg op)) \/
     (exists pre r name res, trace w' = trace w ++ pre ++ [EvGet r name (res, Some e)])) /\
  (forall op fuel p f q e w',
     runUpdate op fuel k p f w = Val (q, Some e) w' ->
     exists pre ev e0,
       trace w' = trace w ++ pre ++ [ev] /\
       failure ev = Some e0 /\
       ((pre = [] /\ isGet ev = true /\ (exists msg, e = Wrapf e0 msg) /\
         (op = OpUpdatePVC -> hasContext "update" "PVC" e)) \/
        (pre <> [] /\ e = e0))).
Proof.
  repeat apply conj.
  - intros op e H. rewrite runGet_eq. cbv zeta. rewrite H. eauto.
  - intros op e H. rewrite runList_eq. cbv zeta.
    destruct (List k (listClient op) (trace w)) as [items err]. simpl in H. subst err.
    destruct items; eauto.
  - intros op name namespace e H Hk.
    destruct op; cbn [runDelete deleteClient] in *.
    + destruct Hk as [Hk|Hk]; [discriminate|]. rewrite DeleteJob_eq, H, Hk. eauto.
    + destruct Hk as [Hk|Hk]; [discriminate|]. rewrite DeletePod_eq, H, Hk. eauto.
    + rewrite DeletePVC_eq, H. eauto.
  - intros op l given e Hl H HE. split.
    + rewrite (runCreate_eq _ _ _ _ _ Hl). cbv zeta. rewrite H, HE. eauto.
    + exists e, (createMsg op). destruct op; repeat split; reflexivity.
  - intros op l given q e w' Hl H.
    rewrite (runCreate_eq _ _ _ _ _ Hl) in H. cbv zeta in H.
    set (r := createClient op (Namespace given)) in *.
    destruct (Create k r (trace w) given) as [o err] eqn:EC. cbn [fst snd] in H.
    assert (Hre : refetched op k o (allocated o (logged (EvCreate r given (o, err)) w))
                  = Val (q, Some e) w' ->
                  exists pre r' name res,
                    trace w' = trace w ++ pre ++ [EvGet r' name (res, Some e)]).
    { intros H0. destruct (refetched_error _ _ _ _ _ _ _ H0) as (r' & name & res & Ht).
      exists [EvCreate r given (o, err)], r', name, res.
      rewrite Ht. simpl. rewrite <- app_assoc. reflexivity. }
    destruct err as [e0|].
    + destruct (IsAlreadyExists e0) eqn:HE.
      * right. apply Hre. exact H.
      * left. injection H as <- <- <-. exists e0. auto.
    + right. apply Hre. exact H.
  - intros op fuel p f q e w' Hrun.
    destruct (update_error_origin _ _ _ _ _ _ _ _ _ Hrun)
      as (_ & pre & ev & e0 & Ht & Hf & Hk).
    exists pre, ev, e0. split; [exact Ht|]. split; [exact Hf|].
    destruct Hk as [(HU & -> & HC)|[(HG & -> & ->)|(HG & Hne & ->)]].
    + right. split; [|reflexivity]. intros ->.
      destruct (pointee p w) as [given|] eqn:Hp.
      2:{ rewrite (runUpdate_nil _ _ _ _ _ _ Hp) in Hrun. discriminate. }
      destruct (runUpdate_run op k f fuel w p given Hp) as (evs & tail & v & Ht' & _ & HR & _).
      rewrite Hrun in Ht'. simpl in Ht'. rewrite Ht in Ht'. apply app_inv_head in Ht'.
      subst evs. destruct ev; try discriminate. inversion HR.
    + left. repeat split; [exact HG | exists fetchMsg; reflexivity |].
      intros _. exists e0, fetchMsg. repeat split; reflexivity.
    + right. auto.
Qed.

Lemma C9_surfaced_error_context_witness :
  (exists w',
     runGet (OpGetJob "a" "default") (broken forbiddenErr) (holding (stale "a" "default"))
       = Val (nil_ptr, Some forbiddenErr) w') /\
  (exists w',
     runDelete OpDeletePVC (broken notFoundErr) "a" "default" (holding (stale "a" "default"))
       = Val (Some notFoundErr) w') /\
  ((exists w',
      runCreate OpCreatePVC (broken forbiddenErr) (Some 0) (holding (stale "a" "default"))
        = Val (nil_ptr, Some (Wrapf forbiddenErr (createMsg OpCreatePVC))) w') /\
   hasContext "create" (createKind OpCreatePVC) (Wrapf forbiddenErr (createMsg OpCreatePVC))) /\
  (exists pre ev e0,
     trace (world_of (UpdatePVC 1 (broken forbiddenErr) (Some 0) (setLabel "a" "b")
                        (holding (stale "a" "default"))))
       = trace (holding (stale "a" "default")) ++ pre ++ [ev] /\
     failure ev = Some e0 /\
     ((pre = [] /\ isGet ev = true /\ (exists msg, Wrapf forbiddenErr fetchMsg = Wrapf e0 msg) /\
       (OpUpdatePVC = OpUpdatePVC -> hasContext "update" "PVC" (Wrapf forbiddenErr fetchMsg))) \/
      (pre <> [] /\ Wrapf forbiddenErr fetchMsg = e0))).
Proof.
  pose proof (C9_surfaced_error_context (broken forbiddenErr) (holding (stale "a" "default")))
    as (HG & _ & _ & HC & _ & HU).
  pose proof (C9_surfaced_error_context (broken notFoundErr) (holding (stale "a" "default")))
    as (_ & _ & HD & _).
  split; [|split; [|split]].
  - apply (HG (OpGetJob "a" "default")). reflexivity.
  - apply (HD OpDeletePVC). + reflexivity. + left. reflexivity.
  - apply (HC OpCreatePVC 0 (stale "a" "default")); reflexivity.
  - apply (HU OpUpdatePVC 1 (Some 0) (setLabel "a" "b") None). reflexivity.
Defined.

(** ** Scenarios *)

(** [UpdatePV] with [setLabel "a" "b"] against a backend that conflicts once
    and then accepts: the object returned carries the label, on top of the
    second snapshot, and [updateFunc] ran twice. *)
Example scenario_update_conflict_once :
  exists w',
    UpdatePV 2 (flaky 1) (Some 0) (setLabel "a" "b") (holding (stale "x" ""))
      = Val (Some 4, None) w' /\
    heap w' !! 4 = Some (stamp 2 (setLabel "a" "b" (snapshot PersistentVolumes "x" 1))) /\
    Labels (stamp 2 (setLabel "a" "b" (snapshot PersistentVolumes "x" 1))) = [("a", "b")] /\
    count isUpdateFunc (trace w') = 2 /\
    heap w' !! 0 = Some (stale "x" "").
Proof. eexists. repeat split; reflexivity. Qed.

(** [CreateJob] twice with the same Job on an empty cluster: the first call
    creates and re-fetches it, the second one gets AlreadyExists and fails on
    the re-fetch. *)
Example scenario_create_twice :
  let k := clientset [] in
  let w1 := world_of (CreateJob k (Some 0) (holding (stale "a" "default"))) in
  returned (CreateJob k (Some 0) (holding (stale "a" "default"))) = Some (Some 2, None) /\
  heap w1 !! 2 = Some (stamp 1 (stale "a" "default")) /\
  returned (CreateJob k (Some 0) w1) = Some (nil_ptr, Some emptyNameErr).
Proof. repeat split; reflexivity. Qed.

(** A delete of a Job that does not exist is a success. *)
Example scenario_delete_missing_job :
  DeleteJob (clientset []) "a" "default" emptyWorld =
    Val None (logged (EvDelete (Jobs "default") "a" (Some notFoundErr)) emptyWorld).
Proof. reflexivity. Qed.

(** * Further properties of the client *)

(** ** The three update functions are one routine *)

(** X1: [UpdatePV], [UpdatePVC] and [UpdateNamespace] are the same fetch, mutate,
    submit, retry-on-conflict routine; they differ only in the typed client,
    which for claims is chosen by the namespace of the object at hand. *)
Theorem update_operations_share_routine (fuel : nat) (k : Interface) (p : ptr)
    (f : Object -> Object) (w : World) :
  UpdatePV fuel k p f w = updateWithRetry (fun _ => PersistentVolumes) fuel k p f w /\
  UpdatePVC fuel k p f w =
    updateWithRetry (fun o => PersistentVolumeClaims (Namespace o)) fuel k p f w /\
  UpdateNamespace fuel k p f w = updateWithRetry (fun _ => Namespaces) fuel k p f w.
Proof.
  split; [|split].
  - exact (runUpdate_generic OpUpdatePV fuel k p f w).
  - exact (runUpdate_generic OpUpdatePVC fuel k p f w).
  - exact (runUpdate_generic OpUpdateNamespace fuel k p f w).
Qed.

(** ** The bound on the iterations does not change a run that ends *)





(** ** How many backend calls a run makes *)

Lemma retryLoop_bounded (op : UpdateOp) (k : Interface) (f : Object -> Object) :
  forall fuel w l cur,
    heap w !! l = Some cur ->
    exists evs,
      trace (world_of (retryLoop (clientOf op) fuel k (Some l) f w)) = trace w ++ evs /\
      count isUpdate evs <= fuel /\
      count isGet evs <= fuel /\
      count isUpdateFunc evs <= fuel /\
      (terminated (retryLoop (clientOf op) fuel k (Some l) f w) \/
       count isUpdate evs = fuel /\ count isGet evs = fuel).
Proof.
  induction fuel as [|fuel IH]; intros w l cur Hl.
  { exists []. simpl. rewrite app_nil_r. repeat split; auto. }
  rewrite (retryLoop_step _ _ _ _ _ _ _ Hl). cbv zeta.
  set (U := EvUpdate (clientOf op cur) cur (Update k (clientOf op cur) (trace w) cur)).
  destruct (snd (Update k (clientOf op cur) (trace w) cur)) as [c|].
  2:{ exists [U]. simpl. repeat split; try lia; try (left; exact I). }
  destruct (IsConflict c).
  2:{ exists [U]. simpl. repeat split; try lia; try (left; exact I). }
  set (w2 := logged (EvDebugf conflictMsg) _).
  assert (Ht2 : trace w2 = trace w ++ [U; EvDebugf conflictMsg]).
  { subst w2. simpl. rewrite <- app_assoc. reflexivity. }
  clearbody w2.
  set (G := EvGet (clientOf op cur) (Name cur) (Get k (clientOf op cur) (trace w2) (Name cur))).
  destruct (Get k (clientOf op cur) (trace w2) (Name cur)) as [[e1|] [e|]] eqn:EG;
    cbn [fst snd].
  1,3,4: exists [U; EvDebugf conflictMsg; G]; simpl; rewrite ?app_nil_r, Ht2, <- app_assoc;
    simpl; repeat split; try lia; try (left; exact I).
  destruct (mutated_fresh G e1 (f e1) w2) as (Ht4 & Hh4 & Hl4).
  cbv zeta in Ht4, Hh4, Hl4.
  set (w4 := mutated (length (heap w2)) e1 (f e1) (allocated (Some e1) (logged G w2))) in *.
  clearbody w4.
  destruct (IH w4 _ _ Hl4) as (evs & Htr & HU & HG & HF & Hend).
  exists (U :: EvDebugf conflictMsg :: G :: EvUpdateFunc (length (heap w2)) e1 (f e1) :: evs).
  split; [rewrite Htr, Ht4, Ht2, <- !app_assoc; reflexivity|].
  subst U G. simpl. repeat split; try lia.
  all: try (destruct Hend as [Hend|[H1 H2]]; [left; exact Hend | right; lia]).
Qed.

(** X3: Within [fuel] iterations of its loop an update operation makes at most
    [fuel] update attempts and at most [fuel + 1] fetches and calls of
    [updateFunc]; a run that has not ended by then has made exactly [fuel]
    update attempts and [fuel + 1] fetches. *)
Theorem update_calls_bounded (op : UpdateOp) (fuel : nat) (k : Interface) (p : ptr)
    (f : Object -> Object) (w : World) :
  exists evs,
    trace (world_of (runUpdate op fuel k p f w)) = trace w ++ evs /\
    count isUpdate evs <= fuel /\
    count isGet evs <= fuel + 1 /\
    count isUpdateFunc evs <= fuel + 1 /\
    (terminated (runUpdate op fuel k p f w) \/
     count isUpdate evs = fuel /\ count isGet evs = fuel + 1).
Proof.
  rewrite runUpdate_generic.
  destruct (load_inv p w) as [(l & given & -> & Hl & Hw)|[Hn Hw]].
  2:{ exists []. unfold updateWithRetry. rewrite bind_unfold, Hw. simpl. rewrite app_nil_r.
      repeat split; try lia; try (left; exact I). }
  rewrite (updateWithRetry_step _ _ _ _ _ _ _ Hl). cbv zeta.
  set (G := EvGet (clientOf op given) (Name given)
              (Get k (clientOf op given) (trace w) (Name given))).
  destruct (Get k (clientOf op given) (trace w) (Name given)) as [[e1|] [e|]] eqn:EG;
    cbn [fst snd].
  1,3,4: exists [G]; simpl; rewrite ?app_nil_r; repeat split; try lia; try (left; exact I).
  destruct (mutated_fresh G e1 (f e1) w) as (Ht4 & Hh4 & Hl4).
  cbv zeta in Ht4, Hh4, Hl4.
  set (w4 := mutated (length (heap w)) e1 (f e1) (allocated (Some e1) (logged G w))) in *.
  clearbody w4.
  destruct (retryLoop_bounded op k f fuel w4 _ _ Hl4) as (evs & Htr & HU & HG & HF & Hend).
  exists (G :: EvUpdateFunc (length (heap w)) e1 (f e1) :: evs).
  split; [rewrite Htr, Ht4, <- !app_assoc; reflexivity|].
  subst G. simpl. repeat split; try lia.
  all: try (destruct Hend as [Hend|[H1 H2]]; [left; exact Hend | right; lia]).
Qed.

(** ** One re-fetch per conflict *)




(** ** The retry fetch follows the mutated object *)

Lemma Attempts_refetch (op : UpdateOp) (f : Object -> Object) (base : nat) (cur : Object)
    (evs : list event) (v : verdict) :
  Attempts op f base cur evs v ->
  forall pre r sent answer post,
    evs = pre ++ EvUpdate r sent answer :: post ->
    r = clientOf op sent /\
    (post = [] \/
     exists answer' post',
       post = EvDebugf conflictMsg :: EvGet (clientOf op sent) (Name sent) answer' :: post').
Proof.
  induction 1 as [cur|cur u|cur res e0 HC|cur res c res' e0 HC|cur res c HC
                  |cur res c e1 l evs v HC Hb H IH];
    intros pre r sent answer post Heq.
  - destruct pre; discriminate.
  - destruct pre as [|? [|? ?]]; simplify_eq/=. auto.
  - destruct pre as [|? [|? ?]]; simplify_eq/=. auto.
  - destruct pre as [|? [|? [|? [|? ?]]]]; simplify_eq/=. split; [reflexivity|]. right. eauto.
  - destruct pre as [|? [|? [|? [|? ?]]]]; simplify_eq/=. split; [reflexivity|]. right. eauto.
  - destruct pre as [|? [|? [|? [|? pre]]]]; simplify_eq/=.
    + split; [reflexivity|]. right. eauto.
    + eapply IH. reflexivity.
Qed.

(** X5: Every update attempt goes to the client chosen by the object submitted,
    and when a run goes on after an update attempt, the next backend call is
    a fetch of the name, in the namespace, of the object that was submitted,
    that is of the object as [updateFunc] left it: a mutation that renames
    the object redirects the retry. *)
Theorem update_refetch_follows_mutation (op : UpdateOp) (fuel : nat) (k : Interface)
    (p : ptr) (f : Object -> Object) (w : World) (pre post : list event) (r : resource)
    (sent : Object) (answer : reply Object) :
  trace (world_of (runUpdate op fuel k p f w)) = trace w ++ pre ++ EvUpdate r sent answer :: post ->
  r = clientOf op sent /\
  (post = [] \/
   exists answer' post',
     post = EvDebugf conflictMsg :: EvGet (clientOf op sent) (Name sent) answer' :: post').
Proof.
  intros Htr.
  destruct (pointee p w) as [given|] eqn:Hp.
  2:{ rewrite (runUpdate_nil _ _ _ _ _ _ Hp) in Htr. simpl in Htr.
      destruct (trace_crash_no_event _ _ _ _ Htr). }
  destruct (runUpdate_run op k f fuel w p given Hp) as (evs & tail & v & Ht & Hh & HR & HD).
  rewrite Ht in Htr. apply app_inv_head in Htr.
  destruct HR as [given res e0|given|given e1 l evs v Hb H].
  - destruct pre as [|? [|? ?]]; simplify_eq/=.
  - destruct pre as [|? [|? ?]]; simplify_eq/=.
  - destruct pre as [|? [|? pre]]; simplify_eq/=.
    eapply Attempts_refetch; eauto.
Qed.

Lemma update_refetch_follows_mutation_witness :
  PersistentVolumes = clientOf OpUpdatePV (rename "y" (snapshot PersistentVolumes "x" 0)) /\
  ([EvDebugf conflictMsg;
    EvGet PersistentVolumes "y" (Some (snapshot PersistentVolumes "y" 1), None);
    EvUpdateFunc 3 (snapshot PersistentVolumes "y" 1)
      (rename "y" (snapshot PersistentVolumes "y" 1));
    EvUpdate PersistentVolumes (rename "y" (snapshot PersistentVolumes "y" 1))
      (Some (stamp 2 (rename "y" (snapshot PersistentVolumes "y" 1))), None)] = [] \/
   exists answer' post',
     [EvDebugf conflictMsg;
      EvGet PersistentVolumes "y" (Some (snapshot PersistentVolumes "y" 1), None);
      EvUpdateFunc 3 (snapshot PersistentVolumes "y" 1)
        (rename "y" (snapshot PersistentVolumes "y" 1));
      EvUpdate PersistentVolumes (rename "y" (snapshot PersistentVolumes "y" 1))
        (Some (stamp 2 (rename "y" (snapshot PersistentVolumes "y" 1))), None)]
     = EvDebugf conflictMsg ::
       EvGet (clientOf OpUpdatePV (rename "y" (snapshot PersistentVolumes "x" 0)))
         (Name (rename "y" (snapshot PersistentVolumes "x" 0))) answer' :: post').
Proof.
  apply (update_refetch_follows_mutation OpUpdatePV 2 (flaky 1) (Some 0) (rename "y")
           (holding (stale "x" ""))
           [EvGet PersistentVolumes "x" (Some (snapshot PersistentVolumes "x" 0), None);
            EvUpdateFunc 1 (snapshot PersistentVolumes "x" 0)
              (rename "y" (snapshot PersistentVolumes "x" 0))]
           _ PersistentVolumes (rename "y" (snapshot PersistentVolumes "x" 0))
           (Some emptyObject, Some conflictErr)).
  reflexivity.
Defined.

(** ** An update operation stays on the caller's entity *)

Section SameEntity.
Variable op : UpdateOp.
Variable k : Interface.
Variable f : Object -> Object.

Hypothesis keeps_identity :
  forall o, Name (f o) = Name o /\ Namespace (f o) = Namespace o.
Hypothesis answers_what_was_asked :
  forall asked h name o,
    fst (Get k (clientOf op asked) h name) = Some o ->
    Name o = name /\ clientOf op o = clientOf op asked.


End SameEntity.



(** ** A nil entity *)

(** X7: Called with a nil entity, the create and the update operations panic on
    the first field access, before any backend call: nothing is added to the
    trace and the heap is as it was. *)
Theorem nil_entity_panics (k : Interface) (w : World) (p : ptr) :
  pointee p w = None ->
  (forall op, runCreate op k p w = Crash w) /\
  (forall op fuel f, runUpdate op fuel k p f w = Crash w).
Proof.
  intros Hp. split.
  - intros op. destruct (load_inv p w) as [(l & o & -> & Hl & Hw)|[Hn Hw]].
    + simpl in Hp. congruence.
    + destruct op; cbn [runCreate]; unfold CreateJob, CreatePVC;
        rewrite bind_unfold, Hw; reflexivity.
  - intros op fuel f. rewrite runUpdate_generic. unfold updateWithRetry. rewrite bind_unfold.
    destruct (load_inv p w) as [(l & o & -> & Hl & Hw)|[Hn Hw]].
    + simpl in Hp. congruence.
    + rewrite Hw. reflexivity.
Qed.

Lemma nil_entity_panics_witness :
  (forall op, runCreate op (clientset []) nil_ptr emptyWorld = Crash emptyWorld) /\
  (forall op fuel f, runUpdate op fuel (clientset []) nil_ptr f emptyWorld = Crash emptyWorld).
Proof.
  apply nil_entity_panics. reflexivity.
Defined.

(** ** Create: the two paths *)

(** X8: When the backend's create returns an object, with no error or with
    AlreadyExists, and the fetch of that object's name in that object's
    namespace succeeds, the create operation returns a pointer to the object
    fetched (not to the one [Create] returned), after exactly these two
    backend calls, and the caller's entity is unchanged. *)
Theorem create_returns_refetched (op : CreateOp) (k : Interface) (l : loc)
    (given o o' : Object) (err : option error) (w : World) :
  heap w !! l = Some given ->
  Create k (createClient op (Namespace given)) (trace w) given = (Some o, err) ->
  match err with Some e => IsAlreadyExists e = true | None => True end ->
  Get k (createClient op (Namespace o))
      (trace w ++ [EvCreate (createClient op (Namespace given)) given (Some o, err)])
      (Name o) = (Some o', None) ->
  exists q w',
    runCreate op k (Some l) w = Val (Some q, None) w' /\
    heap w' !! q = Some o' /\
    heap w' !! l = Some given /\
    trace w' = trace w ++ [EvCreate (createClient op (Namespace given)) given (Some o, err);
                           EvGet (createClient op (Namespace o)) (Name o) (Some o', None)].
Proof.
  intros Hl HC HE HG. rewrite (runCreate_eq _ _ _ _ _ Hl). cbv zeta. rewrite HC. cbn [fst snd].
  assert (HR : exists q w',
    refetched op k (Some o)
      (allocated (Some o)
         (logged (EvCreate (createClient op (Namespace given)) given (Some o, err)) w))
      = Val (Some q, None) w' /\
    heap w' !! q = Some o' /\ heap w' !! l = Some given /\
    trace w' = trace w ++ [EvCreate (createClient op (Namespace given)) given (Some o, err);
                           EvGet (createClient op (Namespace o)) (Name o) (Some o', None)]).
  { unfold refetched. cbv zeta.
    change (trace (allocated (Some o)
                     (logged (EvCreate (createClient op (Namespace given)) given (Some o, err)) w)))
      with (trace w ++ [EvCreate (createClient op (Namespace given)) given (Some o, err)]).
    rewrite HG. cbn [fst snd fresh].
    eexists _, _. split; [reflexivity|]. simpl.
    split; [apply lookup_fresh|].
    split; [rewrite <- app_assoc; apply lookup_app_l_Some; exact Hl|].
    rewrite <- app_assoc. reflexivity. }
  destruct err as [e|]; [rewrite HE|]; exact HR.
Qed.

Lemma create_returns_refetched_witness :
  exists q w',
    runCreate OpCreatePVC (clientset []) (Some 0) (holding (stale "data" "default"))
      = Val (Some q, None) w' /\
    heap w' !! q = Some (stamp 1 (stale "data" "default")) /\
    heap w' !! 0 = Some (stale "data" "default") /\
    trace w' = trace (holding (stale "data" "default")) ++
      [EvCreate (createClient OpCreatePVC (Namespace (stale "data" "default")))
         (stale "data" "default") (Some (stamp 1 (stale "data" "default")), None);
       EvGet (createClient OpCreatePVC (Namespace (stamp 1 (stale "data" "default"))))
         (Name (stamp 1 (stale "data" "default")))
         (Some (stamp 1 (stale "data" "default")), None)].
Proof.
  apply (create_returns_refetched OpCreatePVC (clientset []) 0 (stale "data" "default")
           (stamp 1 (stale "data" "default")) (stamp 1 (stale "data" "default")) None);
    reflexivity || exact I.
Defined.

(** X9: When the backend's create fails with anything but AlreadyExists, the
    create operation makes that one backend call and no re-fetch, returns nil
    with the error wrapped, and leaves the caller's entity unchanged. *)
Theorem create_failure_makes_one_call (op : CreateOp) (k : Interface) (l : loc)
    (given : Object) (e : error) (w : World) :
  heap w !! l = Some given ->
  snd (Create k (createClient op (Namespace given)) (trace w) given) = Some e ->
  IsAlreadyExists e = false ->
  returned (runCreate op k (Some l) w) = Some (nil_ptr, Some (Wrapf e (createMsg op))) /\
  trace (world_of (runCreate op k (Some l) w)) =
    trace w ++ [EvCreate (createClient op (Namespace given)) given
                  (Create k (createClient op (Namespace given)) (trace w) given)] /\
  heap (world_of (runCreate op k (Some l) w)) !! l = Some given.
Proof.
  intros Hl HC HE. rewrite (runCreate_eq _ _ _ _ _ Hl). cbv zeta. rewrite HC, HE.
  cbn [returned world_of]. split; [reflexivity|]. split; [reflexivity|].
  simpl. apply lookup_app_l_Some. exact Hl.
Qed.

Lemma create_failure_makes_one_call_witness :
  returned (runCreate OpCreateJob (broken forbiddenErr) (Some 0) (holding (stale "a" "default")))
    = Some (nil_ptr, Some (Wrapf forbiddenErr (createMsg OpCreateJob))) /\
  trace (world_of (runCreate OpCreateJob (broken forbiddenErr) (Some 0)
                     (holding (stale "a" "default")))) =
    trace (holding (stale "a" "default")) ++
      [EvCreate (createClient OpCreateJob (Namespace (stale "a" "default")))
         (stale "a" "default")
         (Create (broken forbiddenErr)
            (createClient OpCreateJob (Namespace (stale "a" "default")))
            (trace (holding (stale "a" "default"))) (stale "a" "default"))] /\
  heap (world_of (runCreate OpCreateJob (broken forbiddenErr) (Some 0)
                    (holding (stale "a" "default")))) !! 0 = Some (stale "a" "default").
Proof.
  apply (create_failure_makes_one_call OpCreateJob (broken forbiddenErr) 0
           (stale "a" "default") forbiddenErr); reflexivity.
Defined.

(** ** Delete of jobs and pods *)

(** X10: [DeleteJob] and [DeletePod] make one delete call and report success
    exactly when the backend reported success or an error classified as
    NotFound; any other error comes back unchanged. *)
Theorem delete_job_pod_outcome (op : DeleteOp) (k : Interface) (name namespace : string)
    (w : World) :
  op <> OpDeletePVC ->
  let answer := Delete k (deleteClient op namespace) (trace w) name in
  world_of (runDelete op k name namespace w) =
    logged (EvDelete (deleteClient op namespace) name answer) w /\
  (returned (runDelete op k name namespace w) = Some None <->
   answer = None \/ exists e, answer = Some e /\ IsNotFound e = true) /\
  (forall e,
     answer = Some e -> IsNotFound e = false ->
     returned (runDelete op k name namespace w) = Some (Some e)).
Proof.
  intros Hop. cbv zeta.
  assert (E : runDelete op k name namespace w =
              Val (match Delete k (deleteClient op namespace) (trace w) name with
                   | Some e => if IsNotFound e then None else Some e
                   | None => None
                   end)
                  (logged (EvDelete (deleteClient op namespace) name
                             (Delete k (deleteClient op namespace) (trace w) name)) w)).
  { destruct op; [apply DeleteJob_eq | apply DeletePod_eq | congruence]. }
  rewrite E. cbn [world_of returned]. split; [reflexivity|].
  destruct (Delete k (deleteClient op namespace) (trace w) name) as [e|].
  - destruct (IsNotFound e) eqn:HN; split.
    + split; [intros _; right; eauto | reflexivity].
    + intros e' H. injection H as <-. congruence.
    + split; [discriminate|]. intros [H|(e' & H & H')]; [discriminate|].
      injection H as <-. congruence.
    + intros e' H _. injection H as <-. reflexivity.
  - split; [split; auto | discriminate].
Qed.

Lemma delete_job_pod_outcome_witness :
  world_of (runDelete OpDeletePod (clientset []) "web" "default" emptyWorld) =
    logged (EvDelete (deleteClient OpDeletePod "default") "web"
              (Delete (clientset []) (deleteClient OpDeletePod "default") (trace emptyWorld) "web"))
      emptyWorld /\
  (returned (runDelete OpDeletePod (clientset []) "web" "default" emptyWorld) = Some None <->
   Delete (clientset []) (deleteClient OpDeletePod "default") (trace emptyWorld) "web" = None \/
   exists e,
     Delete (clientset []) (deleteClient OpDeletePod "default") (trace emptyWorld) "web" = Some e /\
     IsNotFound e = true) /\
  (forall e,
     Delete (clientset []) (deleteClient OpDeletePod "default") (trace emptyWorld) "web" = Some e ->
     IsNotFound e = false ->
     returned (runDelete OpDeletePod (clientset []) "web" "default" emptyWorld) = Some (Some e)).
Proof.
  apply (delete_job_pod_outcome OpDeletePod (clientset []) "web" "default" emptyWorld).
  discriminate.
Defined.

(** ** What the other operations leave alone *)


